(** * GaiaLab hit detection: a shallow embedding of [hits/hitdetector.py]
      and [hits/noiseremoval/lowpass.py]

    The detectors work on pandas data frames whose cells are float64
    values.  Here a frame is a list of rows, every row carrying its index
    label, and a float cell is an exact rational ([Q]): rounding, NaN and
    infinities are outside the model.  The low-pass filter needs [pi] and
    [exp], so its module works over the real numbers ([R]).

    Python exceptions are values of [result]; a function that cannot raise
    returns a plain value. *)

From Stdlib Require Import List ZArith QArith Qabs Qround Bool Lia Arith.
From Stdlib Require Import Permutation SetoidList Sorted.
From Stdlib Require String.
From Stdlib Require Import Reals Lra.
Import ListNotations.

(** ** Exceptions *)

Inductive exn : Type :=
| IndexError
| KeyError
| ValueError.

Inductive result (A : Type) : Type :=
| Ok (a : A)
| Raise (e : exn).
Arguments Ok {A} a.
Arguments Raise {A} e.

Definition rbind {A B} (c : result A) (k : A -> result B) : result B :=
  match c with
  | Ok a => k a
  | Raise e => Raise e
  end.

(** Order-preserving sub-sequences of a list. *)
Inductive subseq {A : Type} : list A -> list A -> Prop :=
| subseq_nil : subseq [] []
| subseq_skip x l1 l2 : subseq l1 l2 -> subseq l1 (x :: l2)
| subseq_keep x l1 l2 : subseq l1 l2 -> subseq (x :: l1) (x :: l2).

Module Detector.

Local Open Scope Q_scope.

(** ** Data model *)

(** One line of a data frame: the index label, the three telemetry columns
    and the derived columns ([None] while the column does not exist). *)
Record row : Type := mkRow {
  idx : Z;
  obmt : Q;
  rate : Q;
  w1_rate : Q;
  grad : option Q;
  anomaly : option bool;
  hits : option bool
}.

Definition frame : Type := list row.

(** The table of detected events ([anomaly_df]): index label and quantized
    [obmt]. *)
Definition event : Type := (Z * Q)%type.
Definition events : Type := list event.

(** [working_df[col] = values], one row at a time. *)
Definition set_anomaly (b : bool) (r : row) : row :=
  mkRow (idx r) (obmt r) (rate r) (w1_rate r) (grad r) (Some b) (hits r).

Definition set_grad (g : Q) (r : row) : row :=
  mkRow (idx r) (obmt r) (rate r) (w1_rate r) (Some g) (anomaly r) (hits r).

Definition set_hits (h : option bool) (r : row) : row :=
  mkRow (idx r) (obmt r) (rate r) (w1_rate r) (grad r) (anomaly r) h.

(** The telemetry sample of a row, without the derived columns. *)
Definition sample (r : row) : Z * Q * Q * Q :=
  (idx r, obmt r, rate r, w1_rate r).

(** ** numpy and pandas primitives *)

Definition Qlt_bool (x y : Q) : bool := negb (Qle_bool y x).

(** [np.floor(times * n) / n] on one value. *)
Definition quantize (n : Q) (t : Q) : Q := inject_Z (Qfloor (t * n)) / n.

(** [np.diff]. *)
Fixpoint np_diff (l : list Q) : list Q :=
  match l with
  | a :: (b :: _) as l' => (b - a) :: np_diff l'
  | _ => []
  end.

(** [working_df['anomaly'] == True] as a row mask. *)
Definition is_anomaly (r : row) : bool :=
  match anomaly r with
  | Some true => true
  | _ => false
  end.

(** [DataFrame.drop_duplicates(subset='obmt')]: a row is kept when its
    [obmt] has not been seen on an earlier row. *)
Fixpoint drop_duplicates_from (seen : list Q) (l : events) : events :=
  match l with
  | [] => []
  | e :: l' =>
      if existsb (Qeq_bool (snd e)) seen
      then drop_duplicates_from seen l'
      else e :: drop_duplicates_from (snd e :: seen) l'
  end.

Definition drop_duplicates (l : events) : events := drop_duplicates_from [] l.

(** Two events fall in the same quantization bucket. *)
Definition same_bucket (a b : event) : Prop := snd a == snd b.

(** [df.loc[labels]] with a list of labels: the rows carrying each label,
    in the order of the labels; a label that is absent is a [KeyError]. *)
Fixpoint loc (df : frame) (labels : list Z) : result frame :=
  match labels with
  | [] => Ok []
  | l :: ls =>
      match filter (fun r => Z.eqb (idx r) l) df with
      | [] => Raise KeyError
      | rows => rbind (loc df ls) (fun rest => Ok (rows ++ rest))
      end
  end.

Section Detectors.

(** [hits.misc.sort_data], the decorator of the three detectors, and
    pandas' [sort_values('obmt')] are not part of the sources at hand: both
    are parameters.  What the decorator hands to the decorated function is
    [sort_data df]. *)
Variable sort_data : frame -> frame.
Variable sort_values : frame -> frame.

(** *** identify_anomaly *)

Definition anomaly_flag (anomaly_threshold : Q) (r : row) : bool :=
  Qle_bool anomaly_threshold (Qabs (rate r - w1_rate r)).

Definition identify_anomaly_body (df : frame) (anomaly_threshold : Q)
  : frame * events :=
  let working_df := map (fun r => set_anomaly (anomaly_flag anomaly_threshold r) r) df in
  let times := map obmt (filter is_anomaly working_df) in
  let indices := map idx (filter is_anomaly working_df) in
  let anomaly_df := combine indices (map (quantize 10) times) in
  (working_df, drop_duplicates anomaly_df).

(** The function as decorated.  Under [@jit] numba runs the body in object
    mode, that is, as Python runs it: the value returned is the body's.
    The warning numba emits when it compiles is an effect, kept in the
    world of [Store]. *)
Definition identify_anomaly (df : frame) (anomaly_threshold : Q)
  : frame * events :=
  identify_anomaly_body (sort_data df) anomaly_threshold.

(** *** identify_through_gradient *)

(** [abs] of a boolean column: numpy returns the booleans unchanged. *)
Definition abs_bool (b : bool) : bool := b.

(** [working_df[col] = values] with a plain list: the list must be as long
    as the frame, or pandas raises [ValueError].  (For a frame without
    rows pandas re-indexes the frame by the list and pads the other
    columns with NaN; the model has no NaN cell, and reports that case by
    the same [ValueError].) *)
Definition assign_column {A : Type} (set : A -> row -> row)
  (df : frame) (values : list A) : result frame :=
  if Nat.eqb (length values) (length df)
  then Ok (map (fun vr => set (fst vr) (snd vr)) (combine values df))
  else Raise ValueError.

(** [abs(working_df['grad'] >= gradient_threshold)] on one row: the
    comparison first, then [abs] of its boolean.  The column [grad] has
    just been assigned when this is used. *)
Definition grad_flag (gradient_threshold : Q) (r : row) : bool :=
  match grad r with
  | Some g => abs_bool (Qle_bool gradient_threshold g)
  | None => false
  end.

Definition deviation (r : row) : Q := rate r - w1_rate r.

Definition identify_through_gradient_body (df : frame) (gradient_threshold : Q)
  : result (frame * events) :=
  let working_df := sort_values df in
  rbind (assign_column set_grad working_df (0 :: np_diff (map deviation working_df)))
    (fun working_df =>
       let working_df :=
         map (fun r => set_anomaly (grad_flag gradient_threshold r) r) working_df in
       let times := map obmt (filter is_anomaly working_df) in
       let indices := map idx (filter is_anomaly working_df) in
       let anomaly_df := combine indices (map (quantize 20) times) in
       Ok (working_df, drop_duplicates anomaly_df)).

Definition identify_through_gradient (df : frame) (gradient_threshold : Q)
  : result (frame * events) :=
  identify_through_gradient_body (sort_data df) gradient_threshold.

(** *** identify_noise *)

(** A line of [time_data] / [hit_data]: index label, [ombt], [diff],
    [diff_diff] and, once assigned, [hits]. *)
Record trow : Type := mkTrow {
  t_idx : Z;
  t_ombt : Q;
  t_diff : Q;
  t_diff_diff : Q;
  t_hits : option bool
}.

(** [pd.DataFrame(index=..., data=dict(ombt=..., diff=..., diff_diff=...))]:
    every column must be as long as the index, or pandas raises
    [ValueError]. *)
Fixpoint zip_time (index : list Z) (ombt diff diff_diff : list Q) : list trow :=
  match index, ombt, diff, diff_diff with
  | i :: index', o :: ombt', d :: diff', dd :: diff_diff' =>
      mkTrow i o d dd None :: zip_time index' ombt' diff' diff_diff'
  | _, _, _, _ => []
  end.

Definition DataFrame_time (index : list Z) (ombt diff diff_diff : list Q)
  : result (list trow) :=
  if Nat.eqb (length ombt) (length index)
     && Nat.eqb (length diff) (length index)
     && Nat.eqb (length diff_diff) (length index)
  then Ok (zip_time index ombt diff diff_diff)
  else Raise ValueError.

(** [False if diff < 0.5 else True]. *)
Definition classify (diff : Q) : bool :=
  if Qlt_bool diff (1 # 2) then false else true.

(** [hit_data.loc[index]['hits'] if index in hit_data.index else False],
    for index labels that occur at most once in [hit_data]. *)
Definition lookup_hits (hit_data : list trow) (index : Z) : option bool :=
  match find (fun h => Z.eqb (t_idx h) index) hit_data with
  | Some h => t_hits h
  | None => Some false
  end.

Definition identify_noise_body (df : frame) : result (frame * events) :=
  let '(data, t) := identify_anomaly df 2 in
  if Nat.ltb (length (map snd t)) 3 then
    let working_df := map (fun r => set_hits (anomaly r) r) data in
    rbind (loc working_df (map fst t)) (fun hit_df => Ok (hit_df, t))
  else
    let differences := np_diff (map snd t) in
    let differences2 := np_diff differences in
    rbind (DataFrame_time (map fst t) (map snd t)
             (1 :: differences) (1 :: 1 :: differences2))
      (fun time_data =>
         let hit_data :=
           map (fun h => mkTrow (t_idx h) (t_ombt h) (t_diff h) (t_diff_diff h)
                           (Some (classify (t_diff_diff h)))) time_data in
         let working_df :=
           map (fun r => set_hits (lookup_hits hit_data (idx r)) r) data in
         Ok (working_df, t)).

Definition identify_noise (df : frame) : result (frame * events) :=
  identify_noise_body (sort_data df).

End Detectors.

(** The columns [diff] and [diff_diff] of [time_data], and the table
    [hit_data], as functions of the event table. *)
Definition padded_diff (t : events) : list Q := 1 :: np_diff (map snd t).

Definition padded_diff_diff (t : events) : list Q :=
  1 :: 1 :: np_diff (np_diff (map snd t)).

Definition hit_table (t : events) : list trow :=
  map (fun h => mkTrow (t_idx h) (t_ombt h) (t_diff h) (t_diff_diff h)
                  (Some (classify (t_diff_diff h))))
    (zip_time (map fst t) (map snd t) (padded_diff t) (padded_diff_diff t)).

(** A series in time order, and an event table with strictly growing
    times. *)
Definition time_ordered (df : frame) : Prop :=
  StronglySorted (fun a b => obmt a <= obmt b) df.

Definition strictly_later (t : events) : Prop :=
  StronglySorted (fun a b => snd a < snd b) t.

(** *** A concrete sort, used to run the detectors on examples *)

(** Stable insertion sort of the rows by ascending [obmt]. *)
Fixpoint insert_row (r : row) (l : frame) : frame :=
  match l with
  | [] => [r]
  | r' :: l' =>
      if Qle_bool (obmt r) (obmt r') then r :: l else r' :: insert_row r l'
  end.

Fixpoint sort_by_obmt (l : frame) : frame :=
  match l with
  | [] => []
  | r :: l' => insert_row r (sort_by_obmt l')
  end.

(** A raw telemetry sample, as read from a file. *)
Definition raw (i : Z) (t x w : Q) : row := mkRow i t x w None None None.

(** Seven samples, out of order, six of them spikes: two isolated ones,
    three at [obmt] 3, 3.05 and 3.1 (the first two share a bucket), and a
    late one.  They make five events. *)
Definition spikes : frame :=
  [raw 7 3 5 0; raw 3 0 0 0; raw 5 1 4 0; raw 4 2 (-3) 0;
   raw 9 (31 # 10) 3 0; raw 8 (305 # 100) 3 0; raw 2 6 3 0].

(** Two samples, the second a lone spike. *)
Definition lone_spike : frame := [raw 0 0 0 0; raw 1 1 4 0].

(** Three samples that stay within 1 of the reference rate. *)
Definition calm : frame := [raw 0 0 1 0; raw 1 (1 # 2) (-1) 0; raw 2 1 (1 # 2) 1].

(** Four spikes one revolution apart after a quiet sample. *)
Definition train : frame :=
  [raw 0 0 0 0; raw 1 1 4 0; raw 2 2 4 0; raw 3 3 4 0; raw 4 4 4 0].

(** Three samples whose rate stays 1 above the reference rate. *)
Definition calm_offset : frame := [raw 0 0 1 0; raw 1 1 3 2; raw 2 2 (1 # 2) (-1 # 2)].

(** Two samples, the rate dropping by 1 between them. *)
Definition drop : frame := [raw 0 0 0 0; raw 1 1 (-1) 0].

End Detector.

(** The warning categories the detectors can meet, by name. *)
Module Warnings.

Import String.

Definition NumbaWarning : string := "NumbaWarning".

End Warnings.

(** ** The detectors on a store of data frames

    Python passes data frames by reference and [working_df[col] = ...]
    updates the frame in place.  Here the store is a list of frames, a
    reference is a position in it, and a computation takes a world to an
    outcome and a new world.  Event tables and the tables of
    [identify_noise] are built afresh from arrays and never share a frame,
    so they stay plain values.  The world also keeps the warnings emitted
    so far and whether numba has compiled [identify_anomaly], the one
    function of the module under [@jit]. *)

Module Store.

Import Detector Warnings.

Definition ref : Type := nat.

Record world : Type := mkWorld {
  objects : list frame;
  warned : list String.string;  (* newest first *)
  compiled : bool
}.

Definition M (A : Type) : Type := world -> result A * world.

Definition ret {A} (a : A) : M A := fun w => (Ok a, w).

Definition bind {A B} (c : M A) (k : A -> M B) : M B :=
  fun w =>
    match c w with
    | (Ok a, w') => k a w'
    | (Raise e, w') => (Raise e, w')
    end.

Notation "x <- c ;; k" := (bind c (fun x => k))
  (at level 61, c at next level, right associativity).
Notation "c ;;; k" := (bind c (fun _ => k))
  (at level 61, right associativity).

(** A pure step that may raise. *)
Definition lift {A} (c : result A) : M A := fun w => (c, w).

(** [warnings.warn(msg)]; [hitdetector.py] imports [warnings] and the
    detectors never call it themselves. *)
Definition warn (msg : String.string) : M unit :=
  fun w => (Ok tt, mkWorld (objects w) (msg :: warned w) (compiled w)).

(** The state of numba's dispatcher for the decorated function. *)
Definition is_compiled : M bool := fun w => (Ok (compiled w), w).

Definition set_compiled : M unit :=
  fun w => (Ok tt, mkWorld (objects w) (warned w) true).

(** numba's [@jit] around a function of data frames.  The dispatcher
    compiles the function when it is first called.  A data frame has no
    numba type, so the compilation falls back to object mode, which runs
    the Python body as it is, and numba emits a [NumbaWarning] for it: the
    category that [test_hits.py] silences before each of its calls of
    [identify_anomaly].  Later calls find the compiled entry and emit
    nothing.  The log gets one entry for the warnings of a compilation. *)
Definition jit {A B} (func : A -> M B) (a : A) : M B :=
  c <- is_compiled ;;
  (if c : bool then ret tt else warn NumbaWarning ;;; set_compiled) ;;;
  func a.

(** The warnings log of [w] once numba has compiled. *)
Definition numba_log (w : world) : list String.string :=
  if compiled w then warned w else NumbaWarning :: warned w.

(** The frame a reference points to. *)
Definition deref (w : world) (r : ref) : frame := nth r (objects w) [].

Definition read (r : ref) : M frame := fun w => (Ok (deref w r), w).

(** A new frame object. *)
Definition alloc (f : frame) : M ref :=
  fun w => (Ok (length (objects w)),
            mkWorld (objects w ++ [f]) (warned w) (compiled w)).

Fixpoint update (r : nat) (f : frame) (l : list frame) : list frame :=
  match l, r with
  | [], _ => []
  | _ :: l', O => f :: l'
  | g :: l', S r' => g :: update r' f l'
  end.

(** In-place update of the object behind [r]. *)
Definition write (r : ref) (f : frame) : M unit :=
  fun w => (Ok tt, mkWorld (update r f (objects w)) (warned w) (compiled w)).

(** [df.copy()]. *)
Definition copy (df : ref) : M ref :=
  f <- read df ;; alloc f.

(** [df[col] = f(df)]: a column computed from the frame itself. *)
Definition modify (r : ref) (f : frame -> frame) : M unit :=
  fr <- read r ;; write r (f fr).

(** The computation [c], run in [w] with the frame [df] as its input, leaves
    [df] as it was, keeps every object of [w] in place and untouched, and
    returns a frame object that [w] did not have. *)
Definition leaves_unchanged {A} (c : M (ref * A)) (w : world) (df : ref) : Prop :=
  deref (snd (c w)) df = deref w df /\
  (exists fresh, objects (snd (c w)) = objects w ++ fresh) /\
  (forall r x, fst (c w) = Ok (r, x) -> (length (objects w) <= r)%nat).

Section Detectors.

Variable sort_data : frame -> frame.
Variable sort_values : frame -> frame.

(** Modelled from the spec: [hits.misc.sort_data] is not in the sources.
    The spec has the series sorted ascending by [obmt] at the pipeline
    boundary and derived data always produced as a copy: the decorator
    hands a new, sorted frame to the function it wraps. *)
Definition sort_data_decorator {A} (func : ref -> M A) (df : ref) : M A :=
  fr <- read df ;;
  sorted <- alloc (sort_data fr) ;;
  func sorted.

(** [working_df.sort_values('obmt')] returns a new frame. *)
Definition sort_values_new (df : ref) : M ref :=
  fr <- read df ;; alloc (sort_values fr).

Definition identify_anomaly_body (df : ref) (anomaly_threshold : Q)
  : M (ref * events) :=
  working_df <- copy df ;;
  modify working_df
    (map (fun r => set_anomaly (anomaly_flag anomaly_threshold r) r)) ;;;
  fr <- read working_df ;;
  let times := map obmt (filter is_anomaly fr) in
  let indices := map idx (filter is_anomaly fr) in
  let anomaly_df := combine indices (map (quantize 10) times) in
  ret (working_df, drop_duplicates anomaly_df).

(** [@sort_data] around [@jit] around the body. *)
Definition identify_anomaly (df : ref) (anomaly_threshold : Q)
  : M (ref * events) :=
  sort_data_decorator
    (jit (fun df => identify_anomaly_body df anomaly_threshold)) df.

Definition identify_through_gradient_body (df : ref) (gradient_threshold : Q)
  : M (ref * events) :=
  working_df <- copy df ;;
  working_df <- sort_values_new working_df ;;
  fr <- read working_df ;;
  fr' <- lift (assign_column set_grad fr (0%Q :: np_diff (map deviation fr))) ;;
  write working_df fr' ;;;
  modify working_df
    (map (fun r => set_anomaly (grad_flag gradient_threshold r) r)) ;;;
  fr <- read working_df ;;
  let times := map obmt (filter is_anomaly fr) in
  let indices := map idx (filter is_anomaly fr) in
  let anomaly_df := combine indices (map (quantize 20) times) in
  ret (working_df, drop_duplicates anomaly_df).

Definition identify_through_gradient (df : ref) (gradient_threshold : Q)
  : M (ref * events) :=
  sort_data_decorator
    (fun df => identify_through_gradient_body df gradient_threshold) df.

Definition identify_noise_body (df : ref) : M (ref * events) :=
  res <- identify_anomaly df 2 ;;
  let data := fst res in
  let t := snd res in
  if Nat.ltb (length (map snd t)) 3 then
    working_df <- copy data ;;
    modify working_df (map (fun r => set_hits (anomaly r) r)) ;;;
    fr <- read working_df ;;
    rows <- lift (loc fr (map fst t)) ;;
    hit_df <- alloc rows ;;
    ret (hit_df, t)
  else
    let differences := np_diff (map snd t) in
    let differences2 := np_diff differences in
    time_data <- lift (DataFrame_time (map fst t) (map snd t)
                         (1%Q :: differences) (1%Q :: 1%Q :: differences2)) ;;
    let hit_data :=
      map (fun h => mkTrow (t_idx h) (t_ombt h) (t_diff h) (t_diff_diff h)
                      (Some (classify (t_diff_diff h)))) time_data in
    working_df <- copy data ;;
    modify working_df
      (map (fun r => set_hits (lookup_hits hit_data (idx r)) r)) ;;;
    ret (working_df, t).

Definition identify_noise (df : ref) : M (ref * events) :=
  sort_data_decorator identify_noise_body df.

End Detectors.

End Store.

(** ** The callers of the detectors in [hitdetector.py]

    [plot_anomaly] draws with matplotlib and the command-line entry point
    prints: both are modelled by the list of calls they make, kept also
    when an exception ends the run. *)

Module Callers.

Import Detector String.
Local Open Scope Q_scope.

Inductive colour : Type := green | red.

(** The calls to [matplotlib.pyplot]. *)
Inductive plt_call : Type :=
| axvspan (xmin xmax : Q) (color : colour) (alpha : Q)
| scatter (x y : list Q) (s : Q)
| xlabel (s : String.string)
| ylabel (s : String.string)
| show.

(** A computation that makes calls of type [C] and may raise. *)
Definition W (C A : Type) : Type := (list C * result A)%type.

Definition wret {C A} (a : A) : W C A := ([], Ok a).

Definition wbind {C A B} (c : W C A) (k : A -> W C B) : W C B :=
  match c with
  | (calls, Ok a) => (calls ++ fst (k a), snd (k a))
  | (calls, Raise e) => (calls, Raise e)
  end.

Definition call {C} (c : C) : W C unit := ([c], Ok tt).

Definition wlift {C A} (r : result A) : W C A := ([], r).

(** [hit_locs['hits']] as a row mask. *)
Definition is_hit (r : row) : bool :=
  match hits r with
  | Some true => true
  | _ => false
  end.

(** What the number [n] printed for a file is, given the event table [t]
    of the file: the number of events when they are fewer than 3, and else
    the number of entries of [diff_diff] that are at least 0.5, the two
    padded ones among them. *)
Definition printed_count (t : events) (n : nat) : Prop :=
  (n <= List.length t)%nat /\
  ((List.length t < 3)%nat -> n = List.length t) /\
  ((3 <= List.length t)%nat ->
   (2 <= n)%nat /\ n = List.length (filter classify (padded_diff_diff t))).

(** [data['hits'][time]], for an index label that occurs once in [data];
    a label that is absent is a [KeyError]. *)
Definition hits_at (data : frame) (time : Z) : result bool :=
  match find (fun r => Z.eqb (idx r) time) data with
  | Some r => match hits r with
              | Some b => Ok b
              | None => Raise KeyError
              end
  | None => Raise KeyError
  end.

(** [colors['color'][index]], for an index label that occurs once. *)
Definition color_at (colors : list (Z * colour)) (index : Z) : result colour :=
  match find (fun c => Z.eqb (fst c) index) colors with
  | Some c => Ok (snd c)
  | None => Raise KeyError
  end.

(** The list comprehension over [t.index] of the [noise] branch. *)
Fixpoint hit_colours (data : frame) (index : list Z) : result (list colour) :=
  match index with
  | [] => Ok []
  | time :: index' =>
      rbind (hits_at data time) (fun x =>
      rbind (hit_colours data index') (fun rest =>
      Ok ((if x then green else red) :: rest)))
  end.

(** [for index, row in t.iterrows(): plt.axvspan(...)]. *)
Fixpoint draw_bars (colors : list (Z * colour)) (t : events) : W plt_call unit :=
  match t with
  | [] => wret tt
  | (index, time) :: t' =>
      wbind (wlift (color_at colors index)) (fun c =>
      wbind (call (axvspan time (time + 5 / 100) c (1 # 2))) (fun _ =>
      draw_bars colors t'))
  end.

(** The axis labels of the figure. *)
Definition x_label : string := "obmt".
Definition y_label : string := "rate - w1_rate".


(** The bar of an event in a given colour. *)
Definition bar (ec : event * colour) : plt_call :=
  axvspan (snd (fst ec)) (snd (fst ec) + 5 / 100) (snd ec) (1 # 2).

Section Callers.

Variable sort_data : frame -> frame.
Variable sort_values : frame -> frame.

(** The choice of the detector and the table [colors]. *)
Definition detect (noise grad : bool) (df : frame)
  : result (events * list (Z * colour)) :=
  if noise then
    rbind (identify_noise sort_data df) (fun dt =>
    let data := fst dt in
    let t := snd dt in
    rbind (hit_colours data (map fst t)) (fun cs =>
    Ok (t, combine (map fst t) cs)))
  else if grad then
    rbind (identify_through_gradient sort_data sort_values df (3 # 10)) (fun dt =>
    let t := snd dt in
    Ok (t, combine (map fst t) (map (fun _ => red) (map fst t))))
  else
    let t := snd (identify_anomaly sort_data df 2) in
    Ok (t, combine (map fst t) (map (fun _ => red) (map fst t))).

(** One turn of the loop of [plot_anomaly]. *)
Definition plot_one (highlight highlights noise grad : bool) (df : frame)
  : W plt_call unit :=
  wbind (wlift (detect noise grad df)) (fun tc =>
  let t := fst tc in
  let colors := snd tc in
  wbind
    (if highlight || highlights then
       wbind (draw_bars colors t) (fun _ =>
       call (scatter (map obmt df) (map deviation df) (1 # 10)))
     else
       call (scatter (map obmt df) (map deviation df) 1))
    (fun _ =>
  wbind (call (xlabel x_label)) (fun _ =>
  call (ylabel y_label)))).

Fixpoint plot_each (highlight highlights noise grad : bool) (dfs : list frame)
  : W plt_call unit :=
  match dfs with
  | [] => wret tt
  | df :: dfs' =>
      wbind (plot_one highlight highlights noise grad df) (fun _ =>
      plot_each highlight highlights noise grad dfs')
  end.

Definition plot_anomaly (dfs : list frame)
  (highlight highlights noise show_ grad : bool) : W plt_call unit :=
  wbind (plot_each highlight highlights noise grad dfs) (fun _ =>
  if show_ then call show else wret tt).

(** The command-line entry point: for every file, the frame read from
    it goes through [identify_noise] and the number of rows with
    [hits = True] is printed.  The calls are the numbers printed. *)
Fixpoint main (files : list frame) : W nat unit :=
  match files with
  | [] => wret tt
  | df :: files' =>
      wbind (wlift (identify_noise sort_data df)) (fun r =>
      let hit_locs := fst r in
      wbind (call (List.length (filter is_hit hit_locs))) (fun _ =>
      main files'))
  end.

End Callers.

End Callers.

(** ** The test of [identify_anomaly] in [test_hits.py] *)

Module TestHits.

Import Detector.
Local Open Scope Q_scope.

(** [np.linspace(start, stop, num)]. *)
Definition np_linspace (start stop : Q) (num : nat) : list Q :=
  match num with
  | O => []
  | S O => [start]
  | S n =>
      map (fun j => inject_Z (Z.of_nat j) * ((stop - start) / inject_Z (Z.of_nat n))
                    + start)
        (seq 0 num)
  end.

(** [np.zeros(n)]. *)
Definition np_zeros (n : nat) : list Q := repeat 0 n.

(** [int(i)] on a float: the integer part, towards zero. *)
Definition int_ (i : Q) : Z := Z.quot (Qnum i) (Zpos (Qden i)).

Fixpoint set_nth (l : list Q) (n : nat) (v : Q) : list Q :=
  match l, n with
  | [], _ => []
  | _ :: l', O => v :: l'
  | x :: l', S n' => x :: set_nth l' n' v
  end.

(** [a[i] = v] on an array: an index below 0 counts from the end, and an
    index outside the array is an [IndexError]. *)
Definition setitem (a : list Q) (i : Z) (v : Q) : result (list Q) :=
  let n := Z.of_nat (length a) in
  if ((0 <=? i) && (i <? n))%Z then Ok (set_nth a (Z.to_nat i) v)
  else if ((- n <=? i) && (i <? 0))%Z then Ok (set_nth a (Z.to_nat (n + i)) v)
  else Raise IndexError.

(** [for i in hit_loc: rate[int(i)] = 4]. *)
Fixpoint mark_hits (rate : list Q) (hit_loc : list Q) : result (list Q) :=
  match hit_loc with
  | [] => Ok rate
  | i :: hit_loc' =>
      rbind (setitem rate (int_ i) 4) (fun rate => mark_hits rate hit_loc')
  end.

(** [pd.DataFrame(data=dict(obmt=..., rate=..., w1_rate=...))], with the
    default index 0, 1, 2, ... *)
Fixpoint DataFrame_from (i : Z) (obmt rate w1_rate : list Q) : frame :=
  match obmt, rate, w1_rate with
  | t :: obmt', x :: rate', w :: w1_rate' =>
      raw i t x w :: DataFrame_from (i + 1) obmt' rate' w1_rate'
  | _, _, _ => []
  end.

(** [setUp], with the number [hits] that [np.random.randint(1, 20)]
    drew. *)
Definition setUp (hits : nat) : result frame :=
  let obmt := np_linspace 0 100 1000 in
  let rate := np_zeros 1000 in
  let hit_loc := np_linspace 0 999 hits in
  rbind (mark_hits rate hit_loc) (fun rate =>
  let w1_rate := np_zeros 1000 in
  Ok (DataFrame_from 0 obmt rate w1_rate)).

(** The frame [self.df] that [setUp] leaves. *)
Definition setUp_df (hits : nat) : frame :=
  match setUp hits with
  | Ok df => df
  | Raise _ => []
  end.

Section Test.

Variable sort_data : frame -> frame.

(** [test_identify_anomaly_correctly_identifies]: the value handed to
    [assertTrue]. *)
Definition test_identify_anomaly_correctly_identifies (hits : nat)
  : result bool :=
  rbind (setUp hits) (fun df =>
  Ok (Nat.eqb (length (snd (identify_anomaly sort_data df 2))) hits)).

End Test.

(** The test on the frame as it is, for every draw from [first] on,
    [count] draws in all. *)
Definition draws_pass (first count : nat) : bool :=
  forallb
    (fun hits =>
       match setUp hits with
       | Ok df => Nat.eqb (length (snd (identify_anomaly_body df 2))) hits
       | Raise _ => false
       end)
    (seq first count).

End TestHits.

(** ** The low-pass filter, [hits/noiseremoval/lowpass.py] *)

Module LowPass.

Local Open Scope R_scope.

(** The behaviour of a generator: the values it yields, ended by
    [StopIteration], by an exception, or cut when the fuel of the model is
    spent. *)
Inductive trace : Type :=
| Yield (x : R) (rest : trace)
| Stop
| Fail (e : exn)
| Fuel.

Fixpoint yielded (t : trace) : list R :=
  match t with
  | Yield x rest => x :: yielded rest
  | _ => []
  end.

Fixpoint ending (t : trace) : trace :=
  match t with
  | Yield _ rest => ending rest
  | e => e
  end.

Section Filter.

(** [filters.FilterData], the base class, is not in the sources: the state
    it owns (the data and the running filter) is of a type [Base], and its
    method [reset] acts on that state. *)
Variable Base : Type.
Variable reset : Base -> Base.

Record LowPassData : Type := mkLowPassData {
  base : Base;
  _obmt : option (list R);
  _dt : R;
  _cutoff : R;
  _alpha : R
}.

(** [__init__], after [FilterData.__init__] has set up [base] and
    [_obmt]. *)
Definition __init__ (b : Base) (obmt : option (list R)) : result LowPassData :=
  rbind
    (match obmt with
     | Some o =>
         match nth_error o 1, nth_error o 0 with
         | Some o1, Some o0 => Ok ((o1 - o0) * 21600)
         | _, _ => Raise IndexError
         end
     | None => Ok 1
     end)
    (fun dt =>
       let cutoff := 0.05 in
       Ok (mkLowPassData b obmt dt cutoff
             ((2 * PI * dt * cutoff) / (2 * PI * dt * cutoff + 1)))).

Definition tweak_cutoff (self : LowPassData) (cutoff : R) : LowPassData :=
  mkLowPassData (reset (base self)) (_obmt self) (_dt self) cutoff
    (1 - exp (-1 * _dt self * cutoff)).

(** The loop of [_low_pass], from the state [(x, i)]; [fuel] bounds the
    number of turns. *)
Fixpoint low_pass_loop (data_array : list R) (alpha : R) (x : R) (i : nat)
  (fuel : nat) : trace :=
  match fuel with
  | O => Fuel
  | S fuel' =>
      match nth_error data_array i with
      | None => Stop
      | Some d =>
          let x := x + alpha * (d - x) in
          Yield x (low_pass_loop data_array alpha x (S i) fuel')
      end
  end.

Definition _low_pass (self : LowPassData) (data_array : list R)
  (alpha : option R) (fuel : nat) : trace :=
  let alpha := match alpha with None => _alpha self | Some a => a end in
  match nth_error data_array 0 with
  | None => Fail IndexError
  | Some x => low_pass_loop data_array alpha x 0 fuel
  end.

End Filter.

Arguments mkLowPassData {Base}.
Arguments base {Base}.
Arguments _obmt {Base}.
Arguments _dt {Base}.
Arguments _cutoff {Base}.
Arguments _alpha {Base}.
Arguments __init__ {Base}.
Arguments tweak_cutoff {Base}.
Arguments _low_pass {Base}.

(** The values the loop yields from the running value [x] over the
    remaining input [l]. *)
Fixpoint filter_from (alpha : R) (x : R) (l : list R) : list R :=
  match l with
  | [] => []
  | d :: l' => (x + alpha * (d - x)) :: filter_from alpha (x + alpha * (d - x)) l'
  end.

Fixpoint yields (ys : list R) (t : trace) : trace :=
  match ys with
  | [] => t
  | y :: ys' => Yield y (yields ys' t)
  end.

(** A filter built without time stamps, over a base class with no state. *)
Definition plain : LowPassData unit :=
  mkLowPassData tt None 1 0.05 ((2 * PI * 1 * 0.05) / (2 * PI * 1 * 0.05 + 1)).

End LowPass.

(** * Properties *)

(** ** Sub-sequences *)

Lemma subseq_In {A} (l1 l2 : list A) (x : A) :
  subseq l1 l2 -> In x l1 -> In x l2.
Proof.
  induction 1; simpl; intuition.
Qed.

Lemma subseq_map {A B} (f : A -> B) (l1 l2 : list A) :
  subseq l1 l2 -> subseq (map f l1) (map f l2).
Proof.
  induction 1; simpl; constructor; assumption.
Qed.

Lemma subseq_filter {A} (f : A -> bool) (l : list A) : subseq (filter f l) l.
Proof.
  induction l as [|x l IH]; simpl; [constructor|].
  destruct (f x); constructor; assumption.
Qed.

Lemma subseq_trans {A} (l1 l2 l3 : list A) :
  subseq l1 l2 -> subseq l2 l3 -> subseq l1 l3.
Proof.
  intros H12 H23. revert l1 H12.
  induction H23; intros l0 H12.
  - trivial.
  - apply subseq_skip. now apply IHsubseq.
  - inversion H12; subst; [apply subseq_skip | apply subseq_keep];
      now apply IHsubseq.
Qed.

Lemma subseq_NoDup {A} (l1 l2 : list A) :
  subseq l1 l2 -> NoDup l2 -> NoDup l1.
Proof.
  induction 1; intros Hnd; trivial.
  - inversion Hnd; subst. now apply IHsubseq.
  - inversion Hnd; subst. constructor; [|now apply IHsubseq].
    intros Hin. now apply (subseq_In _ _ _ H) in Hin.
Qed.

Module DetectorFacts.

Import Detector.
Local Open Scope Q_scope.

(** ** Booleans and rationals *)

Lemma Qeq_bool_sym (x y : Q) : Qeq_bool x y = Qeq_bool y x.
Proof.
  destruct (Qeq_bool x y) eqn:E1, (Qeq_bool y x) eqn:E2; trivial.
  - apply Qeq_bool_iff in E1. symmetry in E1. apply Qeq_bool_iff in E1. congruence.
  - apply Qeq_bool_iff in E2. symmetry in E2. apply Qeq_bool_iff in E2. congruence.
Qed.

Lemma Qeq_bool_trans (x y z : Q) :
  Qeq_bool x y = true -> Qeq_bool y z = true -> Qeq_bool x z = true.
Proof.
  rewrite !Qeq_bool_iff. intros H1 H2. now rewrite H1.
Qed.

Lemma existsb_Qeq_compat (x y : Q) (seen : list Q) :
  Qeq_bool x y = true ->
  existsb (Qeq_bool x) seen = true -> existsb (Qeq_bool y) seen = true.
Proof.
  intros Hxy. rewrite !existsb_exists. intros [s [Hin Hs]].
  exists s. split; trivial.
  apply Qeq_bool_trans with x; trivial. now rewrite Qeq_bool_sym.
Qed.

Lemma Qlt_bool_iff (x y : Q) : Qlt_bool x y = true <-> x < y.
Proof.
  unfold Qlt_bool. rewrite negb_true_iff. split.
  - intros H. apply Qnot_le_lt. intros Hle. apply Qle_bool_iff in Hle. congruence.
  - intros H. destruct (Qle_bool y x) eqn:E; trivial.
    apply Qle_bool_iff in E. exfalso. now apply (Qlt_not_le x y).
Qed.

(** ** drop_duplicates *)

Lemma drop_duplicates_from_subseq (l : events) :
  forall seen, subseq (drop_duplicates_from seen l) l.
Proof.
  induction l as [|e l IH]; intros seen; simpl.
  - constructor.
  - destruct (existsb (Qeq_bool (snd e)) seen); constructor; apply IH.
Qed.

Lemma drop_duplicates_from_unseen (l : events) :
  forall seen e, In e (drop_duplicates_from seen l) ->
                 existsb (Qeq_bool (snd e)) seen = false.
Proof.
  induction l as [|a l IH]; intros seen e; simpl; [tauto|].
  destruct (existsb (Qeq_bool (snd a)) seen) eqn:Ea.
  - apply IH.
  - intros [<-|Hin]; trivial.
    apply IH in Hin. simpl in Hin. now apply orb_false_iff in Hin.
Qed.

Lemma drop_duplicates_from_NoDupA (l : events) :
  forall seen, NoDupA same_bucket (drop_duplicates_from seen l).
Proof.
  induction l as [|a l IH]; intros seen; simpl.
  - constructor.
  - destruct (existsb (Qeq_bool (snd a)) seen) eqn:Ea; [apply IH|].
    constructor; [|apply IH].
    intros Hin. apply InA_alt in Hin. destruct Hin as [b [Hab Hb]].
    apply drop_duplicates_from_unseen in Hb. simpl in Hb.
    apply orb_false_iff in Hb. destruct Hb as [Hb _].
    unfold same_bucket in Hab. symmetry in Hab.
    apply Qeq_bool_iff in Hab. congruence.
Qed.

Lemma drop_duplicates_from_first (l : events) :
  forall seen e, In e l ->
    existsb (Qeq_bool (snd e)) seen = true \/
    exists e', find (fun x => Qeq_bool (snd x) (snd e)) l = Some e' /\
               In e' (drop_duplicates_from seen l).
Proof.
  induction l as [|a l IH]; intros seen e Hin; simpl in *; [tauto|].
  destruct (Qeq_bool (snd a) (snd e)) eqn:Eae.
  - destruct (existsb (Qeq_bool (snd a)) seen) eqn:Ea.
    + left. now apply existsb_Qeq_compat with (snd a).
    + right. exists a. split; trivial. now left.
  - destruct Hin as [->|Hin].
    { rewrite (proj2 (Qeq_bool_iff _ _) (Qeq_refl _)) in Eae. discriminate. }
    destruct (existsb (Qeq_bool (snd a)) seen) eqn:Ea.
    + apply IH; trivial.
    + destruct (IH (snd a :: seen) e Hin) as [H|[e' [Hf He']]].
      * simpl in H. rewrite Qeq_bool_sym, Eae in H. now left.
      * right. exists e'. split; trivial. now right.
Qed.

Lemma drop_duplicates_first (l : events) (e : event) :
  In e l ->
  exists e', find (fun x => Qeq_bool (snd x) (snd e)) l = Some e' /\
             In e' (drop_duplicates l).
Proof.
  intros Hin. destruct (drop_duplicates_from_first l [] e Hin) as [H|H]; trivial.
  discriminate.
Qed.

(** ** The table of events of a flagged frame *)

Lemma combine_idx_times (n : Q) (l : frame) :
  combine (map idx l) (map (quantize n) (map obmt l)) =
  map (fun r => (idx r, inject_Z (Qfloor (obmt r * n)) / n)) l.
Proof.
  induction l as [|r l IH]; simpl; trivial. now rewrite IH.
Qed.

Lemma filter_is_anomaly_set (flag : row -> bool) (l : frame) :
  filter is_anomaly (map (fun r => set_anomaly (flag r) r) l) =
  map (fun r => set_anomaly (flag r) r) (filter flag l).
Proof.
  induction l as [|r l IH]; simpl; trivial.
  rewrite IH. unfold is_anomaly at 1. simpl.
  destruct (flag r) eqn:E; simpl; rewrite ?E; reflexivity.
Qed.

Lemma anomaly_flag_iff (t : Q) (r : row) :
  anomaly_flag t r = true <-> t <= Qabs (rate r - w1_rate r).
Proof. apply Qle_bool_iff. Qed.

(** ** Differences and the table of hits *)

Lemma np_diff_length (l : list Q) : length (np_diff l) = pred (length l).
Proof.
  induction l as [|a [|b l] IH]; trivial.
  change (np_diff (a :: b :: l)) with ((b - a) :: np_diff (b :: l)).
  simpl length in *. now rewrite IH.
Qed.

Lemma np_diff_nth (l : list Q) :
  forall i a b,
    nth_error l i = Some a -> nth_error l (S i) = Some b ->
    nth_error (np_diff l) i = Some (b - a).
Proof.
  induction l as [|x [|y l] IH]; intros i a b Ha Hb.
  - destruct i; discriminate.
  - destruct i; discriminate.
  - change (np_diff (x :: y :: l)) with ((y - x) :: np_diff (y :: l)).
    destruct i as [|i]; simpl in Ha, Hb.
    + injection Ha as <-. injection Hb as <-. reflexivity.
    + simpl. now apply IH.
Qed.

Lemma padded_lengths (t : events) :
  (2 <= length t)%nat ->
  length (padded_diff t) = length t /\ length (padded_diff_diff t) = length t.
Proof.
  intros H. unfold padded_diff, padded_diff_diff. simpl.
  rewrite !np_diff_length, length_map. unfold events, event in *. lia.
Qed.

Lemma zip_time_nth (ix : list Z) :
  forall (o d dd : list Q) i a b c e,
    nth_error ix i = Some a -> nth_error o i = Some b ->
    nth_error d i = Some c -> nth_error dd i = Some e ->
    nth_error (zip_time ix o d dd) i = Some (mkTrow a b c e None).
Proof.
  induction ix as [|x ix IH]; intros o d dd i a b c e Ha Hb Hc He.
  - destruct i; discriminate.
  - destruct o as [|y o]; [destruct i; discriminate|].
    destruct d as [|z d]; [destruct i; discriminate|].
    destruct dd as [|u dd]; [destruct i; discriminate|].
    destruct i as [|i]; simpl in *.
    + congruence.
    + now apply IH.
Qed.

Lemma zip_time_idx (ix : list Z) :
  forall (o d dd : list Q),
    length o = length ix -> length d = length ix -> length dd = length ix ->
    map t_idx (zip_time ix o d dd) = ix.
Proof.
  induction ix as [|x ix IH]; intros o d dd Ho Hd Hdd; trivial.
  destruct o as [|y o]; [discriminate|].
  destruct d as [|z d]; [discriminate|].
  destruct dd as [|u dd]; [discriminate|].
  simpl in *. f_equal. apply IH; lia.
Qed.

Lemma hit_table_idx (t : events) :
  (2 <= length t)%nat -> map t_idx (hit_table t) = map fst t.
Proof.
  intros H. destruct (padded_lengths t H) as [H1 H2].
  unfold hit_table. rewrite map_map. simpl.
  apply zip_time_idx; rewrite ?length_map; trivial.
Qed.

Lemma hit_table_nth (t : events) (i : nat) (e : event) (dd : Q) :
  (2 <= length t)%nat ->
  nth_error t i = Some e -> nth_error (padded_diff_diff t) i = Some dd ->
  exists h, nth_error (hit_table t) i = Some h /\
            t_idx h = fst e /\ t_hits h = Some (classify dd).
Proof.
  intros H He Hdd. destruct (padded_lengths t H) as [H1 _].
  assert (Hi : (i < length t)%nat) by (apply nth_error_Some; congruence).
  destruct (nth_error (padded_diff t) i) as [d|] eqn:Hd;
    [|apply nth_error_None in Hd; lia].
  unfold hit_table.
  rewrite nth_error_map,
    (zip_time_nth _ _ _ _ i (fst e) (snd e) d dd); trivial.
  - eexists. split; [reflexivity|]. split; reflexivity.
  - now apply map_nth_error.
  - now apply map_nth_error.
Qed.

Lemma find_unique (l : list trow) :
  forall i h,
    NoDup (map t_idx l) -> nth_error l i = Some h ->
    find (fun h' => Z.eqb (t_idx h') (t_idx h)) l = Some h.
Proof.
  induction l as [|x l IH]; intros i h Hnd Hn.
  - destruct i; discriminate.
  - simpl in Hnd. inversion Hnd as [|? ? Hx Hnd']; subst.
    destruct i as [|i]; simpl in Hn.
    + injection Hn as ->. simpl. now rewrite Z.eqb_refl.
    + simpl. destruct (Z.eqb (t_idx x) (t_idx h)) eqn:E.
      * apply Z.eqb_eq in E. exfalso. apply Hx. rewrite E.
        apply in_map. now apply nth_error_In with i.
      * now apply IH with i.
Qed.

Lemma find_absent (l : list trow) (k : Z) :
  ~ In k (map t_idx l) -> find (fun h => Z.eqb (t_idx h) k) l = None.
Proof.
  induction l as [|x l IH]; intros Hk; trivial.
  simpl in *. destruct (Z.eqb (t_idx x) k) eqn:E.
  - apply Z.eqb_eq in E. tauto.
  - apply IH. tauto.
Qed.

Lemma lookup_hits_event (t : events) (i : nat) (e : event) (dd : Q) :
  (2 <= length t)%nat -> NoDup (map fst t) ->
  nth_error t i = Some e -> nth_error (padded_diff_diff t) i = Some dd ->
  lookup_hits (hit_table t) (fst e) = Some (classify dd).
Proof.
  intros H Hnd He Hdd.
  destruct (hit_table_nth t i e dd H He Hdd) as [h [Hh [Hi Hc]]].
  unfold lookup_hits. rewrite <- Hi.
  rewrite (find_unique _ i h); trivial.
  now rewrite hit_table_idx.
Qed.

Lemma lookup_hits_other (t : events) (k : Z) :
  (2 <= length t)%nat -> ~ In k (map fst t) ->
  lookup_hits (hit_table t) k = Some false.
Proof.
  intros H Hk. unfold lookup_hits. rewrite find_absent; trivial.
  now rewrite hit_table_idx.
Qed.

Lemma classify_iff (dd : Q) : classify dd = true <-> 1 # 2 <= dd.
Proof.
  unfold classify. destruct (Qlt_bool dd (1 # 2)) eqn:E.
  - apply Qlt_bool_iff in E. split; [discriminate|].
    intros H. exfalso. now apply (Qlt_not_le dd (1 # 2)).
  - split; trivial. intros _. apply Qnot_lt_le. intros H.
    apply Qlt_bool_iff in H. congruence.
Qed.

(** ** Rows by label *)

Lemma loc_total (W : frame) (labels : list Z) :
  (forall k, In k labels -> In k (map idx W)) ->
  exists rows, loc W labels = Ok rows /\
               forall r, In r rows <-> In r W /\ In (idx r) labels.
Proof.
  induction labels as [|k ks IH]; intros Hl.
  - exists []. split; trivial. simpl. tauto.
  - destruct IH as [rest [Hrest Hin]].
    { intros k' Hk'. apply Hl. now right. }
    simpl. rewrite Hrest.
    destruct (filter (fun r => Z.eqb (idx r) k) W) as [|r0 rows0] eqn:Ef.
    + exfalso. assert (Hk : In k (map idx W)) by (apply Hl; now left).
      apply in_map_iff in Hk. destruct Hk as [r [Hr1 Hr2]].
      assert (Hr : In r (filter (fun r => Z.eqb (idx r) k) W)).
      { apply filter_In. split; trivial. now apply Z.eqb_eq. }
      rewrite Ef in Hr. destruct Hr.
    + simpl. eexists. split; [reflexivity|].
      intros r. rewrite app_comm_cons, in_app_iff, <- Ef, Hin, filter_In, Z.eqb_eq.
      intuition.
Qed.

(** ** The gradient column *)

Lemma gradient_rows (g : Q) (grads : list Q) :
  forall W : frame,
    length grads = length W ->
    Forall2 (fun r r' => sample r' = sample r) W
      (map (fun r => set_anomaly (grad_flag g r) r)
         (map (fun vr => set_grad (fst vr) (snd vr)) (combine grads W))) /\
    Forall2 (fun d r' => grad r' = Some d /\ anomaly r' = Some (Qle_bool g d))
      grads
      (map (fun r => set_anomaly (grad_flag g r) r)
         (map (fun vr => set_grad (fst vr) (snd vr)) (combine grads W))).
Proof.
  induction grads as [|d grads IH]; intros [|r W] Hlen; try discriminate.
  - split; constructor.
  - injection Hlen as Hlen. destruct (IH W Hlen) as [IH1 IH2].
    split; constructor; trivial. split; reflexivity.
Qed.

(** ** Where the events come from *)

Lemma events_subseq (S : frame) (thr : Q) :
  subseq (snd (identify_anomaly_body S thr))
    (map (fun r => (idx r, quantize 10 (obmt r))) (filter (anomaly_flag thr) S)).
Proof.
  unfold identify_anomaly_body. simpl.
  rewrite filter_is_anomaly_set, !map_map. simpl.
  rewrite <- (map_map obmt (quantize 10)), combine_idx_times.
  apply drop_duplicates_from_subseq.
Qed.

Lemma event_origin (S : frame) (thr : Q) (e : event) :
  In e (snd (identify_anomaly_body S thr)) ->
  exists r, In r S /\ anomaly_flag thr r = true /\
            fst e = idx r /\ snd e = quantize 10 (obmt r).
Proof.
  intros He. apply (subseq_In _ _ _ (events_subseq S thr)) in He.
  apply in_map_iff in He. destruct He as [r [<- Hr]].
  apply filter_In in Hr. destruct Hr as [Hr Hf].
  exists r. repeat split; trivial.
Qed.

Lemma event_labels_subseq (S : frame) (thr : Q) :
  subseq (map fst (snd (identify_anomaly_body S thr))) (map idx S).
Proof.
  apply subseq_trans with (map idx (filter (anomaly_flag thr) S)).
  - pose proof (subseq_map fst _ _ (events_subseq S thr)) as H.
    now rewrite map_map in H.
  - apply subseq_map, subseq_filter.
Qed.

Lemma event_labels_NoDup (S : frame) (thr : Q) :
  NoDup (map idx S) -> NoDup (map fst (snd (identify_anomaly_body S thr))).
Proof.
  apply subseq_NoDup, event_labels_subseq.
Qed.


Section Facts.

Variable sort_data : frame -> frame.

(** C1. [identify_anomaly] returns the sorted series with every sample
    flagged exactly when [|rate - w1_rate| >= t], the other columns left as
    they were; its event table is made of the pairs (index,
    [floor(obmt*10)/10]) of the flagged samples, in their order, with one
    event per bucket, and the event of a bucket is the first flagged sample
    that falls in it. *)
Theorem identify_anomaly_spec (df : frame) (t : Q) :
  let flagged :=
    map (fun r => (idx r, inject_Z (Qfloor (obmt r * 10)) / 10))
      (filter (fun r => Qle_bool t (Qabs (rate r - w1_rate r))) (sort_data df)) in
  Forall2
    (fun r r' =>
       sample r' = sample r /\ grad r' = grad r /\ hits r' = hits r /\
       exists b, anomaly r' = Some b /\
                 (b = true <-> t <= Qabs (rate r - w1_rate r)))
    (sort_data df) (fst (identify_anomaly sort_data df t)) /\
  subseq (snd (identify_anomaly sort_data df t)) flagged /\
  NoDupA same_bucket (snd (identify_anomaly sort_data df t)) /\
  (forall e, In e flagged ->
     exists e', find (fun x => Qeq_bool (snd x) (snd e)) flagged = Some e' /\
                In e' (snd (identify_anomaly sort_data df t))).
Proof.
  intros flagged. unfold identify_anomaly, identify_anomaly_body. simpl.
  rewrite filter_is_anomaly_set, !map_map. simpl.
  rewrite <- (map_map obmt (quantize 10)), combine_idx_times.
  fold flagged. repeat split.
  - induction (sort_data df) as [|r l IH]; constructor; trivial.
    repeat split; trivial.
    exists (anomaly_flag t r). split; trivial. apply anomaly_flag_iff.
  - apply drop_duplicates_from_subseq.
  - apply drop_duplicates_from_NoDupA.
  - apply drop_duplicates_first.
Qed.

(** *** identify_noise, branch by branch *)

Lemma identify_noise_many (df : frame) :
  (3 <= length (snd (identify_anomaly sort_data (sort_data df) 2)))%nat ->
  identify_noise sort_data df =
  Ok (map (fun r =>
             set_hits
               (lookup_hits
                  (hit_table (snd (identify_anomaly sort_data (sort_data df) 2)))
                  (idx r)) r)
        (fst (identify_anomaly sort_data (sort_data df) 2)),
      snd (identify_anomaly sort_data (sort_data df) 2)).
Proof.
  unfold identify_noise, identify_noise_body.
  destruct (identify_anomaly sort_data (sort_data df) 2) as [data t].
  cbn [fst snd]. intros Ht.
  destruct (padded_lengths t) as [H1 H2]; [lia|].
  rewrite length_map.
  match goal with
  | |- context [Nat.ltb ?n 3] => destruct (Nat.ltb_spec n 3) as [Hlt|_]
  end; [unfold events, event in *; lia|].
  unfold DataFrame_time.
  fold (padded_diff t). fold (padded_diff_diff t).
  rewrite H1, H2, !length_map, !Nat.eqb_refl. reflexivity.
Qed.

Lemma identify_noise_few (df : frame) :
  (length (snd (identify_anomaly sort_data (sort_data df) 2)) < 3)%nat ->
  identify_noise sort_data df =
  rbind
    (loc (map (fun r => set_hits (anomaly r) r)
            (fst (identify_anomaly sort_data (sort_data df) 2)))
       (map fst (snd (identify_anomaly sort_data (sort_data df) 2))))
    (fun hit_df => Ok (hit_df, snd (identify_anomaly sort_data (sort_data df) 2))).
Proof.
  unfold identify_noise, identify_noise_body.
  destruct (identify_anomaly sort_data (sort_data df) 2) as [data t].
  cbn [fst snd]. intros Ht. rewrite length_map.
  match goal with
  | |- context [Nat.ltb ?n 3] => destruct (Nat.ltb_spec n 3) as [_|Hge]
  end; [reflexivity | unfold events, event in *; lia].
Qed.

(** The case of fewer than 3 events: the frame returned holds the rows
    that carry the label of an event, among them, for every event, the
    row of the sample that made it. *)
Lemma identify_noise_few_rows (df : frame) :
  (length (snd (identify_anomaly sort_data (sort_data df) 2)) < 3)%nat ->
  exists hit_df,
    identify_noise sort_data df =
      Ok (hit_df, snd (identify_anomaly sort_data (sort_data df) 2)) /\
    (forall e,
        In e (snd (identify_anomaly sort_data (sort_data df) 2)) ->
        exists r, In r hit_df /\ idx r = fst e /\
                  snd e = quantize 10 (obmt r) /\
                  anomaly r = Some true /\ hits r = Some true) /\
    (forall r,
        In r hit_df ->
        In (idx r) (map fst (snd (identify_anomaly sort_data (sort_data df) 2))) /\
        hits r = anomaly r /\
        In (sample r) (map sample (sort_data (sort_data df)))).
Proof.
  intros Ht. rewrite (identify_noise_few df Ht).
  unfold identify_anomaly.
  set (S2 := sort_data (sort_data df)).
  set (t := snd (identify_anomaly_body S2 2)).
  set (W := map (fun r => set_hits (anomaly r) r) (fst (identify_anomaly_body S2 2))).
  assert (HW : map idx W = map idx S2).
  { unfold W, identify_anomaly_body. cbn [fst]. now rewrite !map_map. }
  destruct (loc_total W (map fst t)) as [rows [Hloc Hrows]].
  { intros k Hk. rewrite HW.
    now apply (subseq_In _ _ _ (event_labels_subseq S2 2)). }
  exists rows. rewrite Hloc. split; [reflexivity|]. split.
  - intros e He.
    destruct (event_origin S2 2 e He) as [s0 [Hs0 [Hflag [Hi0 Hb]]]].
    exists (set_hits (Some true) (set_anomaly true s0)).
    split; [|simpl; auto].
    apply Hrows. split.
    + unfold W, identify_anomaly_body. cbn [fst]. rewrite map_map.
      apply in_map_iff. exists s0. split; trivial.
      simpl. rewrite Hflag. reflexivity.
    + simpl. rewrite <- Hi0. now apply in_map.
  - intros r Hr. apply Hrows in Hr. destruct Hr as [Hr Hin].
    split; trivial.
    unfold W, identify_anomaly_body in Hr. cbn [fst] in Hr.
    rewrite map_map in Hr. apply in_map_iff in Hr.
    destruct Hr as [s [<- Hs]]. split; [reflexivity|].
    change (In (sample s) (map sample S2)). now apply in_map.
Qed.

(** *** identify_through_gradient *)

Section Gradient.

Variable sort_values : frame -> frame.

(** C6, as the code has it. On a series that is not empty,
    [identify_through_gradient] returns normally; the column [grad] is the
    first difference of [rate - w1_rate] over the sorted samples with a 0
    put in front, as long as the series; a sample whose difference is at
    least [g] is flagged and a flagged sample has a difference of magnitude
    at least [g]; the first sample, whose difference is 0, is flagged
    exactly when [g <= 0]. *)
Theorem identify_through_gradient_spec (df : frame) (g : Q) :
  let W := sort_values (sort_data df) in
  let grads := 0 :: np_diff (map deviation W) in
  W <> [] ->
  exists out ev,
    identify_through_gradient sort_data sort_values df g = Ok (out, ev) /\
    length grads = length W /\
    (forall i a b,
        nth_error W i = Some a -> nth_error W (S i) = Some b ->
        nth_error grads (S i) =
          Some ((rate b - w1_rate b) - (rate a - w1_rate a))) /\
    Forall2 (fun r r' => sample r' = sample r) W out /\
    Forall2
      (fun d r' =>
         grad r' = Some d /\
         exists b, anomaly r' = Some b /\
                   (g <= d -> b = true) /\ (b = true -> g <= Qabs d))
      grads out /\
    (exists r0 rest,
        out = r0 :: rest /\ grad r0 = Some 0 /\
        (anomaly r0 = Some true <-> g <= 0)).
Proof.
  intros W grads HW.
  assert (Hlen : length grads = length W).
  { unfold grads. simpl. rewrite np_diff_length, length_map.
    destruct W; [congruence | reflexivity]. }
  unfold identify_through_gradient, identify_through_gradient_body, assign_column.
  fold W. fold grads. rewrite Hlen, Nat.eqb_refl. cbn [rbind].
  destruct (gradient_rows g grads W Hlen) as [H1 H2].
  eexists. eexists. split; [reflexivity|].
  split; trivial. split; [|split; [|split]]; trivial.
  - intros i a b Ha Hb. unfold grads. simpl.
    apply (np_diff_nth (map deviation W) i (deviation a) (deviation b));
      now apply map_nth_error.
  - eapply Forall2_impl; [|exact H2]. intros d r' [Hg Ha].
    split; trivial. exists (Qle_bool g d). split; trivial. split.
    + apply Qle_bool_iff.
    + intros Hb. apply Qle_bool_iff in Hb.
      apply Qle_trans with d; trivial. apply Qle_Qabs.
  - destruct W as [|r W']; [congruence|].
    unfold grads. simpl. eexists. eexists. split; [reflexivity|].
    simpl. split; trivial.
    unfold grad_flag, abs_bool. simpl. rewrite <- Qle_bool_iff.
    split; [now intros [= ->] | now intros ->].
Qed.

End Gradient.

(** *** Sorting keeps the samples *)

Hypothesis sort_data_permutes : forall l, Permutation (sort_data l) l.

Lemma sorted_labels_NoDup (df : frame) :
  NoDup (map idx df) -> NoDup (map idx (sort_data (sort_data df))).
Proof.
  intros H. apply Permutation_NoDup with (map idx df); trivial.
  apply Permutation_map, Permutation_sym.
  now rewrite !sort_data_permutes.
Qed.

(** C2. Let [t] be the event table that [identify_noise] gets from its
    call to [identify_anomaly].  With unique index labels and at least 3
    events, [identify_noise] returns normally; the columns [diff] and [diff_diff] hold the first and
    second differences of the event times, padded on the left with one and
    two values 1 so that they are as long as the event table; the row of
    event [i] gets [hits = True] exactly when entry [i] of [diff_diff] is at
    least 0.5, and the first two events always get [hits = True]. *)
Theorem identify_noise_classifies (df : frame) :
  let t := snd (identify_anomaly sort_data (sort_data df) 2) in
  NoDup (map idx df) ->
  (3 <= length t)%nat ->
  exists working_df,
    identify_noise sort_data df = Ok (working_df, t) /\
    length (padded_diff t) = length t /\
    length (padded_diff_diff t) = length t /\
    nth_error (padded_diff t) 0 = Some 1 /\
    nth_error (padded_diff_diff t) 0 = Some 1 /\
    nth_error (padded_diff_diff t) 1 = Some 1 /\
    (forall i a b,
        nth_error t i = Some a -> nth_error t (S i) = Some b ->
        nth_error (padded_diff t) (S i) = Some (snd b - snd a)) /\
    (forall i a b c,
        nth_error t i = Some a -> nth_error t (S i) = Some b ->
        nth_error t (S (S i)) = Some c ->
        nth_error (padded_diff_diff t) (S (S i)) =
          Some ((snd c - snd b) - (snd b - snd a))) /\
    (forall i e,
        nth_error t i = Some e ->
        exists dd,
          nth_error (padded_diff_diff t) i = Some dd /\
          (exists r, In r working_df /\ idx r = fst e) /\
          (forall r, In r working_df -> idx r = fst e ->
                     hits r = Some (classify dd) /\
                     (hits r = Some true <-> 1 # 2 <= dd))) /\
    (forall i e r,
        (i < 2)%nat -> nth_error t i = Some e ->
        In r working_df -> idx r = fst e -> hits r = Some true).
Proof.
  intros t Hnd Ht.
  pose proof (identify_noise_many df Ht) as Hrun. fold t in Hrun.
  destruct (padded_lengths t) as [H1 H2]; [lia|].
  assert (Hlab : NoDup (map fst t))
    by (apply event_labels_NoDup, sorted_labels_NoDup, Hnd).
  assert (Hrow : forall i e dd r,
             nth_error t i = Some e ->
             nth_error (padded_diff_diff t) i = Some dd ->
             In r (map (fun r => set_hits (lookup_hits (hit_table t) (idx r)) r)
                     (fst (identify_anomaly sort_data (sort_data df) 2))) ->
             idx r = fst e -> hits r = Some (classify dd)).
  { intros i e dd r He Hdd Hr Hidx.
    apply in_map_iff in Hr. destruct Hr as [r0 [<- _]]. simpl in *.
    rewrite Hidx. apply lookup_hits_event with i; trivial. lia. }
  eexists. split; [exact Hrun|].
  repeat match goal with |- _ /\ _ => split end; trivial.
  - intros i a b Ha Hb. unfold padded_diff. simpl.
    apply np_diff_nth; now apply map_nth_error.
  - intros i a b c Ha Hb Hc. unfold padded_diff_diff. simpl.
    apply np_diff_nth; apply np_diff_nth; now apply map_nth_error.
  - intros i e He.
    assert (Hi : (i < length t)%nat) by (apply nth_error_Some; congruence).
    destruct (nth_error (padded_diff_diff t) i) as [dd|] eqn:Hdd;
      [|apply nth_error_None in Hdd; lia].
    exists dd. split; trivial. split.
    + destruct (event_origin (sort_data (sort_data df)) 2 e) as [r [Hr [_ [Hi' _]]]].
      { now apply nth_error_In with i. }
      eexists. split.
      * apply in_map. unfold identify_anomaly, identify_anomaly_body.
        cbn [fst]. apply in_map. exact Hr.
      * simpl. now symmetry.
    + intros r Hr Hidx.
      assert (Hh : hits r = Some (classify dd)) by (now apply Hrow with i e).
      split; trivial. rewrite Hh, <- classify_iff.
      split; [now intros [= ->] | now intros ->].
  - intros i e r Hi He Hr Hidx.
    assert (Hdd : nth_error (padded_diff_diff t) i = Some 1)
      by (destruct i as [|[|i]]; trivial; lia).
    now rewrite (Hrow i e 1 r).
Qed.


End Facts.

(** ** The insertion sort is a sort *)

Lemma insert_row_permutes (r : row) (l : frame) :
  Permutation (insert_row r l) (r :: l).
Proof.
  induction l as [|x l IH]; simpl; trivial.
  destruct (Qle_bool (obmt r) (obmt x)); trivial.
  rewrite IH. apply perm_swap.
Qed.

Lemma sort_by_obmt_permutes (l : frame) : Permutation (sort_by_obmt l) l.
Proof.
  induction l as [|x l IH]; simpl; trivial.
  rewrite insert_row_permutes. now constructor.
Qed.

(** ** Runs on concrete series *)

Lemma spikes_labels : NoDup (map idx spikes).
Proof.
  repeat constructor; simpl; intuition discriminate.
Defined.

Lemma identify_anomaly_spec_witness :
  NoDupA same_bucket (snd (identify_anomaly sort_by_obmt spikes 2)).
Proof.
  exact (proj1 (proj2 (proj2 (identify_anomaly_spec sort_by_obmt spikes 2)))).
Defined.

Lemma identify_noise_classifies_witness :
  NoDup (map idx spikes) /\
  (3 <= length (snd (identify_anomaly sort_by_obmt (sort_by_obmt spikes) 2)))%nat /\
  exists working_df,
    identify_noise sort_by_obmt spikes =
      Ok (working_df, snd (identify_anomaly sort_by_obmt (sort_by_obmt spikes) 2)).
Proof.
  assert (H1 : NoDup (map idx spikes)) by exact spikes_labels.
  assert (H2 : (3 <= length (snd (identify_anomaly sort_by_obmt
                                    (sort_by_obmt spikes) 2)))%nat)
    by (vm_compute; lia).
  split; [exact H1 | split; [exact H2|]].
  destruct (identify_noise_classifies sort_by_obmt sort_by_obmt_permutes
              spikes H1 H2) as [working_df [Hrun _]].
  exists working_df. exact Hrun.
Defined.



(** The claim C6 as the spec has it fails on [drop] with threshold 0: the
    first sample is flagged, and the second, whose difference is -1, of
    magnitude 1, is not. *)
Lemma identify_through_gradient_first_flagged :
  exists out ev,
    identify_through_gradient sort_by_obmt sort_by_obmt drop 0 = Ok (out, ev) /\
    map grad out = [Some 0; Some (-1 # 1)] /\
    map anomaly out = [Some true; Some false] /\
    0 <= Qabs (-1 # 1).
Proof.
  eexists. eexists. split; [vm_compute; reflexivity|].
  split; [reflexivity|]. split; [reflexivity|]. discriminate.
Qed.

Lemma identify_through_gradient_spec_witness :
  sort_by_obmt (sort_by_obmt drop) <> [] /\
  exists out ev,
    identify_through_gradient sort_by_obmt sort_by_obmt drop (3 # 10) =
      Ok (out, ev).
Proof.
  assert (H : sort_by_obmt (sort_by_obmt drop) <> []) by (vm_compute; discriminate).
  split; [exact H|].
  destruct (identify_through_gradient_spec sort_by_obmt sort_by_obmt drop
              (3 # 10) H) as [out [ev [Hrun _]]].
  exists out, ev. exact Hrun.
Defined.

End DetectorFacts.

(** ** The detectors on the store *)

Module StoreFacts.

Import Detector Warnings Store.

Lemma nth_new {A} (l rest : list A) (x d : A) :
  nth (length l) (l ++ x :: rest) d = x.
Proof. induction l; simpl; trivial. Qed.

Lemma update_new (l rest : list frame) (f g : frame) :
  update (length l) f (l ++ g :: rest) = l ++ f :: rest.
Proof. induction l; simpl; trivial. now rewrite IHl. Qed.

Lemma nth_old {A} (l rest : list A) (r : nat) (d : A) :
  (r < length l)%nat -> nth r (l ++ rest) d = nth r l d.
Proof. intros H. now apply app_nth1. Qed.

Lemma grows_deref (w w' : world) (fresh : list frame) (r : ref) :
  objects w' = objects w ++ fresh ->
  (r < length (objects w))%nat -> deref w' r = deref w r.
Proof.
  intros Hf Hr. unfold deref. rewrite Hf. now apply nth_old.
Qed.

Section Facts.

Variable sort_data : frame -> frame.

Lemma jit_run {A B} (func : A -> M B) (a : A) (w : world) :
  jit func a w = func a (mkWorld (objects w) (numba_log w) true).
Proof. destruct w as [o l [|]]; reflexivity. Qed.

Lemma identify_anomaly_body_run (df : ref) (thr : Q) (w : world) :
  Store.identify_anomaly_body df thr w =
  (Ok (length (objects w),
       snd (Detector.identify_anomaly_body (deref w df) thr)),
   mkWorld
     (objects w ++ [fst (Detector.identify_anomaly_body (deref w df) thr)])
     (warned w) (compiled w)).
Proof.
  unfold Store.identify_anomaly_body, copy, modify, bind, read, alloc, write,
    ret, deref. simpl.
  rewrite !nth_new, update_new, nth_new. reflexivity.
Qed.

Lemma identify_anomaly_run (df : ref) (thr : Q) (w : world) :
  Store.identify_anomaly sort_data df thr w =
  (Ok (S (length (objects w)),
       snd (Detector.identify_anomaly sort_data (deref w df) thr)),
   mkWorld
     (objects w ++
      [sort_data (deref w df);
       fst (Detector.identify_anomaly sort_data (deref w df) thr)])
     (numba_log w) true).
Proof.
  unfold Store.identify_anomaly, sort_data_decorator, bind, read, alloc.
  rewrite jit_run, identify_anomaly_body_run. unfold deref, numba_log. simpl.
  rewrite nth_new, length_app, <- app_assoc. simpl.
  rewrite Nat.add_1_r. reflexivity.
Qed.

Lemma identify_noise_body_run (df : ref) (w : world) :
  exists (r' : ref) (fresh : list frame),
    snd (Store.identify_noise_body sort_data df w) =
      mkWorld (objects w ++ fresh) (numba_log w) true /\
    fst (Store.identify_noise_body sort_data df w) =
      match Detector.identify_noise_body sort_data (deref w df) with
      | Ok (fr, t) => Ok (r', t)
      | Raise e => Raise e
      end /\
    forall fr t,
      Detector.identify_noise_body sort_data (deref w df) = Ok (fr, t) ->
      (length (objects w) <= r')%nat /\ nth r' (objects w ++ fresh) [] = fr.
Proof.
  unfold Store.identify_noise_body, Detector.identify_noise_body, bind.
  rewrite identify_anomaly_run.
  destruct (Detector.identify_anomaly sort_data (deref w df) 2) as [data t].
  cbn [fst snd].
  set (l2 := objects w ++ [sort_data (deref w df); data]).
  assert (Hl2 : S (length (objects w)) =
                length (objects w ++ [sort_data (deref w df)]))
    by (rewrite length_app; simpl; lia).
  assert (Hdata : nth (S (length (objects w))) l2 [] = data).
  { unfold l2. rewrite Hl2.
    change (objects w ++ [sort_data (deref w df); data])
      with (objects w ++ [sort_data (deref w df)] ++ [data]).
    rewrite app_assoc. apply nth_new. }
  destruct (Nat.ltb (length (map snd t)) 3).
  - unfold copy, modify, bind, read, alloc, write, lift, ret, deref, rbind.
    cbn [objects warned fst snd]. rewrite Hdata.
    rewrite !nth_new, update_new, nth_new.
    destruct (loc (map (fun r => set_hits (anomaly r) r) data) (map fst t))
      as [rows|e]; cbn [fst snd].
    + exists (length (l2 ++ [map (fun r => set_hits (anomaly r) r) data])).
      exists ([sort_data (deref w df); data;
               map (fun r => set_hits (anomaly r) r) data; rows]).
      unfold l2. rewrite <- !app_assoc. cbn [app]. repeat split.
      * rewrite length_app. lia.
      * injection H as <- _.
        change (objects w ++ [sort_data (deref w df); data;
                  map (fun r => set_hits (anomaly r) r) data; rows])
          with (objects w ++ [sort_data (deref w df); data;
                  map (fun r => set_hits (anomaly r) r) data] ++ [rows]).
        rewrite app_assoc. apply nth_new.
    + exists O.
      exists ([sort_data (deref w df); data;
               map (fun r => set_hits (anomaly r) r) data]).
      unfold l2. rewrite <- !app_assoc. cbn [app]. repeat split; discriminate.
  - unfold copy, modify, bind, read, alloc, write, lift, ret, deref, rbind.
    destruct (DataFrame_time _ _ _ _) as [time_data|e];
      cbn [objects warned fst snd].
    + rewrite Hdata. rewrite !nth_new, update_new.
      match goal with
      | |- context [l2 ++ [?W]] =>
          exists (length l2); exists [sort_data (deref w df); data; W];
          replace (objects w ++ [sort_data (deref w df); data; W])
            with (l2 ++ [W]) by (unfold l2; rewrite <- app_assoc; reflexivity)
      end.
      repeat split.
      * unfold l2. rewrite length_app. lia.
      * injection H as <- _. apply nth_new.
    + exists O. exists [sort_data (deref w df); data].
      repeat split; discriminate.
Qed.

Lemma identify_noise_run (df : ref) (w : world) :
  exists (r' : ref) (fresh : list frame),
    snd (Store.identify_noise sort_data df w) =
      mkWorld (objects w ++ fresh) (numba_log w) true /\
    fst (Store.identify_noise sort_data df w) =
      match Detector.identify_noise sort_data (deref w df) with
      | Ok (fr, t) => Ok (r', t)
      | Raise e => Raise e
      end /\
    forall fr t,
      Detector.identify_noise sort_data (deref w df) = Ok (fr, t) ->
      (length (objects w) <= r')%nat /\ nth r' (objects w ++ fresh) [] = fr.
Proof.
  unfold Store.identify_noise, Detector.identify_noise, sort_data_decorator,
    bind, read, alloc. cbn [fst snd].
  set (w1 := mkWorld (objects w ++ [sort_data (deref w df)]) (warned w)
               (compiled w)).
  destruct (identify_noise_body_run (length (objects w)) w1)
    as [r' [fresh [Hw [Hr Hfr]]]].
  assert (Hd : deref w1 (length (objects w)) = sort_data (deref w df))
    by (unfold deref, w1; cbn [objects]; apply nth_new).
  rewrite Hd in Hr, Hfr. cbn [objects warned w1] in Hw, Hfr.
  rewrite <- app_assoc in Hw, Hfr.
  exists r', (sort_data (deref w df) :: fresh). repeat split; trivial.
  - apply Hfr in H. destruct H as [H _]. rewrite length_app in H. lia.
  - now apply Hfr in H.
Qed.

(** C4, as the code has it. Let [t] be the event table that
    [identify_noise] gets from its call to [identify_anomaly].  With fewer
    than 3 events [identify_noise] returns normally (no exception); every
    event has its row in the frame returned, the row of the sample that
    made it, with [hits = True], and every row returned carries the label
    of an event and has [hits] equal to its [anomaly] flag.  Run on the
    store it ends with the same result, and its warnings are those of its
    call of [identify_anomaly]: the [NumbaWarning] of [@jit] when numba has
    not compiled [identify_anomaly] before, and none when it has.  The
    branch for fewer than 3 events adds no warning of its own. *)
Theorem identify_noise_few_events (df : frame) :
  let t := snd (Detector.identify_anomaly sort_data (sort_data df) 2) in
  (length t < 3)%nat ->
  exists hit_df,
    Detector.identify_noise sort_data df = Ok (hit_df, t) /\
    (forall e,
        In e t ->
        exists r, In r hit_df /\ idx r = fst e /\
                  snd e = quantize 10 (obmt r) /\ hits r = Some true) /\
    (forall r, In r hit_df -> In (idx r) (map fst t) /\ hits r = anomaly r) /\
    forall (w : world) (r : ref),
      deref w r = df ->
      exists r',
        fst (Store.identify_noise sort_data r w) = Ok (r', t) /\
        deref (snd (Store.identify_noise sort_data r w)) r' = hit_df /\
        warned (snd (Store.identify_noise sort_data r w)) =
          warned (snd (Store.identify_anomaly sort_data r 2 w)) /\
        warned (snd (Store.identify_noise sort_data r w)) =
          (if compiled w then warned w else NumbaWarning :: warned w) /\
        compiled (snd (Store.identify_noise sort_data r w)) = true.
Proof.
  intros t Ht.
  destruct (DetectorFacts.identify_noise_few_rows sort_data df Ht)
    as [hit_df [Hrun [Hev Hrows]]].
  fold t in Hrun, Hev, Hrows.
  exists hit_df. split; trivial. split; [|split].
  - intros e He. destruct (Hev e He) as [r [H1 [H2 [H3 [_ H4]]]]].
    exists r. auto.
  - intros r Hr. destruct (Hrows r Hr) as [H1 [H2 _]]. auto.
  - intros w r Hr.
    destruct (identify_noise_run r w) as [r' [fresh [Hw [Hres Hfr]]]].
    rewrite Hr, Hrun in Hres. specialize (Hfr hit_df t).
    rewrite Hr in Hfr. destruct (Hfr Hrun) as [_ Hd].
    exists r'. split; trivial. rewrite Hw, identify_anomaly_run.
    repeat split; trivial.
Qed.

Section Gradient.

Variable sort_values : frame -> frame.

Lemma identify_through_gradient_body_run (df : ref) (thr : Q) (w : world) :
  Store.identify_through_gradient_body sort_values df thr w =
  match Detector.identify_through_gradient_body sort_values (deref w df) thr with
  | Ok (fr, ev) =>
      (Ok (S (length (objects w)), ev),
       mkWorld (objects w ++ [deref w df; fr]) (warned w) (compiled w))
  | Raise e =>
      (Raise e,
       mkWorld (objects w ++ [deref w df; sort_values (deref w df)])
         (warned w) (compiled w))
  end.
Proof.
  unfold Store.identify_through_gradient_body,
    Detector.identify_through_gradient_body, sort_values_new, copy, modify,
    bind, read, alloc, write, ret, lift, deref. simpl.
  rewrite !nth_new, length_app. simpl. rewrite Nat.add_1_r.
  set (l1 := objects w ++ [nth df (objects w) []]).
  assert (Hl : S (length (objects w)) = length l1)
    by (unfold l1; rewrite length_app; simpl; lia).
  rewrite Hl.
  destruct (assign_column set_grad _ _) as [fr'|e]; simpl;
    repeat (rewrite update_new || rewrite nth_new);
    unfold l1; rewrite <- app_assoc; reflexivity.
Qed.

Lemma identify_through_gradient_run (df : ref) (thr : Q) (w : world) :
  Store.identify_through_gradient sort_data sort_values df thr w =
  match Detector.identify_through_gradient sort_data sort_values (deref w df) thr with
  | Ok (fr, ev) =>
      (Ok (S (S (length (objects w))), ev),
       mkWorld
         (objects w ++ [sort_data (deref w df); sort_data (deref w df); fr])
         (warned w) (compiled w))
  | Raise e =>
      (Raise e,
       mkWorld
         (objects w ++
          [sort_data (deref w df); sort_data (deref w df);
           sort_values (sort_data (deref w df))])
         (warned w) (compiled w))
  end.
Proof.
  unfold Store.identify_through_gradient, Detector.identify_through_gradient,
    sort_data_decorator, bind, read, alloc.
  rewrite identify_through_gradient_body_run. unfold deref. simpl.
  rewrite !nth_new, length_app. simpl. rewrite Nat.add_1_r.
  destruct (Detector.identify_through_gradient_body _ _ _) as [[fr ev]|e];
    rewrite <- ?app_assoc; reflexivity.
Qed.

(** C9. Whatever the input frame [df] of the store, [identify_anomaly],
    [identify_through_gradient] and [identify_noise] (as decorated, and
    their bodies on their own) leave it unchanged: every
    object of the store stays as it was, the derived columns go to objects
    allocated during the call, and the frame returned is one of those. *)
Theorem detectors_leave_input_unchanged (w : world) (df : ref) (thr g : Q) :
  (df < length (objects w))%nat ->
  leaves_unchanged (Store.identify_anomaly sort_data df thr) w df /\
  leaves_unchanged (Store.identify_through_gradient sort_data sort_values df g) w df /\
  leaves_unchanged (Store.identify_noise sort_data df) w df /\
  leaves_unchanged (Store.identify_anomaly_body df thr) w df /\
  leaves_unchanged (Store.identify_through_gradient_body sort_values df g) w df /\
  leaves_unchanged (Store.identify_noise_body sort_data df) w df.
Proof.
  intros Hdf.
  assert (Hgrow : forall A (c : M (ref * A)) fresh,
             objects (snd (c w)) = objects w ++ fresh ->
             (forall r x, fst (c w) = Ok (r, x) -> (length (objects w) <= r)%nat) ->
             leaves_unchanged c w df).
  { intros A c fresh Hf Hr. split; [|split]; trivial.
    - now apply grows_deref with fresh.
    - now exists fresh. }
  refine (conj _ (conj _ (conj _ (conj _ (conj _ _))))).
  - eapply Hgrow; rewrite identify_anomaly_run; cbn [fst snd objects];
      [reflexivity | intros r x [= <- _]; lia].
  - pose proof (identify_through_gradient_run df g w) as H.
    destruct (Detector.identify_through_gradient _ _ _ _) as [[fr ev]|e];
      eapply Hgrow; rewrite H; cbn [fst snd objects];
      try reflexivity; intros r x [= <- _]; lia.
  - destruct (identify_noise_run df w) as [r' [fresh [Hw [Hr Hfr]]]].
    eapply Hgrow.
    + rewrite Hw. reflexivity.
    + rewrite Hr. intros r x.
      destruct (Detector.identify_noise _ _) as [[fr t]|e]; [|discriminate].
      intros [= <- _]. now destruct (Hfr fr t eq_refl).
  - eapply Hgrow; rewrite identify_anomaly_body_run; cbn [fst snd objects];
      [reflexivity | intros r x [= <- _]; lia].
  - pose proof (identify_through_gradient_body_run df g w) as H.
    destruct (Detector.identify_through_gradient_body _ _ _) as [[fr ev]|e];
      eapply Hgrow; rewrite H; cbn [fst snd objects];
      try reflexivity; intros r x [= <- _]; lia.
  - destruct (identify_noise_body_run df w) as [r' [fresh [Hw [Hr Hfr]]]].
    eapply Hgrow.
    + rewrite Hw. reflexivity.
    + rewrite Hr. intros r x.
      destruct (Detector.identify_noise_body _ _) as [[fr t]|e]; [|discriminate].
      intros [= <- _]. now destruct (Hfr fr t eq_refl).
Qed.

End Gradient.

End Facts.

(** ** Runs on concrete stores *)

(** The claim C4 as the spec has it fails on [lone_spike] in a process
    where numba has not compiled [identify_anomaly] yet: there is one
    event, [identify_noise] returns, and the warnings log, empty before the
    call, holds a [NumbaWarning] after it. *)
Lemma identify_noise_numba_warning :
  (length (snd (Detector.identify_anomaly sort_by_obmt
                  (sort_by_obmt lone_spike) 2)) < 3)%nat /\
  warned (mkWorld [lone_spike] [] false) = [] /\
  (exists r t,
      fst (Store.identify_noise sort_by_obmt 0%nat
             (mkWorld [lone_spike] [] false)) = Ok (r, t)) /\
  warned (snd (Store.identify_noise sort_by_obmt 0%nat
                 (mkWorld [lone_spike] [] false))) = [NumbaWarning].
Proof.
  split; [vm_compute; lia|]. split; [reflexivity|].
  split; [|vm_compute; reflexivity].
  eexists. eexists. vm_compute. reflexivity.
Qed.

Lemma identify_noise_few_events_witness :
  (length (snd (Detector.identify_anomaly sort_by_obmt
                  (sort_by_obmt lone_spike) 2)) < 3)%nat /\
  exists hit_df,
    Detector.identify_noise sort_by_obmt lone_spike =
      Ok (hit_df,
          snd (Detector.identify_anomaly sort_by_obmt (sort_by_obmt lone_spike) 2)).
Proof.
  assert (H : (length (snd (Detector.identify_anomaly sort_by_obmt
                              (sort_by_obmt lone_spike) 2)) < 3)%nat)
    by (vm_compute; lia).
  split; [exact H|].
  destruct (identify_noise_few_events sort_by_obmt lone_spike H)
    as [hit_df [Hrun _]].
  exists hit_df. exact Hrun.
Defined.

Lemma detectors_leave_input_unchanged_witness :
  (0 < length (objects (mkWorld [spikes] [] false)))%nat /\
  leaves_unchanged (Store.identify_noise sort_by_obmt 0%nat)
    (mkWorld [spikes] [] false) 0%nat.
Proof.
  assert (H : (0 < length (objects (mkWorld [spikes] [] false)))%nat)
    by (simpl; lia).
  split; [exact H|].
  exact (proj1 (proj2 (proj2
           (detectors_leave_input_unchanged sort_by_obmt sort_by_obmt
              (mkWorld [spikes] [] false) 0%nat 2 (3 # 10) H)))).
Defined.

End StoreFacts.

(** ** The low-pass filter *)

Module LowPassFacts.

Import LowPass.
Local Open Scope R_scope.

Lemma yielded_yields (ys : list R) (t : trace) :
  yielded (yields ys t) = ys ++ yielded t.
Proof. induction ys; simpl; congruence. Qed.

Lemma ending_yields (ys : list R) (t : trace) :
  ending (yields ys t) = ending t.
Proof. induction ys; simpl; trivial. Qed.

Lemma filter_from_length (alpha : R) (l : list R) :
  forall x, length (filter_from alpha x l) = length l.
Proof. induction l; intros x; simpl; auto. Qed.

Lemma filter_from_step (alpha : R) (l : list R) :
  forall x n yn d,
    nth_error (filter_from alpha x l) n = Some yn ->
    nth_error l (S n) = Some d ->
    nth_error (filter_from alpha x l) (S n) = Some (yn + alpha * (d - yn)).
Proof.
  induction l as [|a l IH]; intros x n yn d Hy Hd.
  - destruct n; discriminate.
  - destruct n as [|n]; simpl in *.
    + injection Hy as <-. destruct l as [|b l]; [discriminate|].
      simpl in *. now injection Hd as <-.
    + now apply IH.
Qed.

(** The loop, started at position [length pre] of [pre ++ l] with enough
    fuel, yields [filter_from alpha x l] and stops. *)
Lemma low_pass_loop_run (alpha : R) (l : list R) :
  forall pre x fuel,
    (length l < fuel)%nat ->
    low_pass_loop (pre ++ l) alpha x (length pre) fuel =
    yields (filter_from alpha x l) Stop.
Proof.
  induction l as [|d l IH]; intros pre x fuel Hf.
  - destruct fuel as [|fuel]; [inversion Hf|]. simpl.
    rewrite (proj2 (nth_error_None (pre ++ []) (length pre))); trivial.
    rewrite app_nil_r. apply Nat.le_refl.
  - destruct fuel as [|fuel]; [inversion Hf|]. simpl.
    rewrite nth_error_app2, Nat.sub_diag by apply Nat.le_refl. simpl.
    f_equal.
    replace (pre ++ d :: l) with ((pre ++ [d]) ++ l)
      by (rewrite <- app_assoc; reflexivity).
    replace (S (length pre)) with (length (pre ++ [d]))
      by (rewrite length_app; simpl; lia).
    apply IH. simpl in Hf. lia.
Qed.

(** With too little fuel the loop is cut; it never raises. *)
Lemma low_pass_loop_short (alpha : R) (l : list R) :
  forall pre x fuel,
    (fuel <= length l)%nat ->
    ending (low_pass_loop (pre ++ l) alpha x (length pre) fuel) = Fuel.
Proof.
  induction l as [|d l IH]; intros pre x fuel Hf.
  - inversion Hf. reflexivity.
  - destruct fuel as [|fuel]; trivial. simpl.
    rewrite nth_error_app2, Nat.sub_diag by apply Nat.le_refl. simpl.
    replace (pre ++ d :: l) with ((pre ++ [d]) ++ l)
      by (rewrite <- app_assoc; reflexivity).
    replace (S (length pre)) with (length (pre ++ [d]))
      by (rewrite length_app; simpl; lia).
    apply IH. simpl in Hf. lia.
Qed.

Section Facts.

Variable Base : Type.
Variable reset : Base -> Base.

Lemma low_pass_run (self : LowPassData Base) (x0 : R) (data : list R)
  (alpha : option R) (fuel : nat) :
  (length (x0 :: data) < fuel)%nat ->
  _low_pass self (x0 :: data) alpha fuel =
  yields
    (filter_from (match alpha with None => _alpha self | Some a => a end)
       x0 (x0 :: data))
    Stop.
Proof.
  intros Hf. unfold _low_pass. cbn [nth_error].
  apply (low_pass_loop_run _ (x0 :: data) [] x0 fuel Hf).
Qed.

(** C3, as the code has it. On an input that is not empty, with fuel for
    one turn more than there are samples, the filter yields as many values
    as it was given and stops normally; the first value is [x[0]] and
    every later one is [y[n+1] = y[n] + alpha * (x[n+1] - y[n])]. *)
Theorem low_pass_recurrence (self : LowPassData Base) (data : list R)
  (alpha : option R) (fuel : nat) :
  let a := match alpha with None => _alpha self | Some a => a end in
  let y := yielded (_low_pass self data alpha fuel) in
  data <> [] ->
  (length data < fuel)%nat ->
  ending (_low_pass self data alpha fuel) = Stop /\
  length y = length data /\
  nth_error y 0 = nth_error data 0 /\
  forall n yn d,
    nth_error y n = Some yn -> nth_error data (S n) = Some d ->
    nth_error y (S n) = Some (yn + a * (d - yn)).
Proof.
  intros a y Hne Hf. destruct data as [|x0 data]; [congruence|].
  unfold y. rewrite (low_pass_run self x0 data alpha fuel Hf).
  rewrite ending_yields, yielded_yields, app_nil_r. fold a.
  split; [reflexivity|]. split; [apply filter_from_length|]. split.
  - simpl. f_equal. ring.
  - intros n yn d. apply filter_from_step.
Qed.

(** C10. On the empty input the generator fails with [IndexError] and has
    yielded nothing, whatever the fuel.  On an input that is not empty it
    never fails: it stops normally after as many values as there are
    samples, once the fuel allows one turn more than that, and is cut by
    the fuel of the model otherwise. *)
Theorem low_pass_empty_fails (self : LowPassData Base) (alpha : option R)
  (fuel : nat) :
  _low_pass self [] alpha fuel = Fail IndexError /\
  yielded (_low_pass self [] alpha fuel) = [] /\
  forall data,
    data <> [] ->
    (forall e, ending (_low_pass self data alpha fuel) <> Fail e) /\
    ((length data < fuel)%nat ->
     ending (_low_pass self data alpha fuel) = Stop /\
     length (yielded (_low_pass self data alpha fuel)) = length data) /\
    ((fuel <= length data)%nat ->
     ending (_low_pass self data alpha fuel) = Fuel).
Proof.
  split; [reflexivity|]. split; [reflexivity|].
  intros data Hne. destruct data as [|x0 data]; [congruence|].
  assert (Hlong : (length (x0 :: data) < fuel)%nat ->
                  ending (_low_pass self (x0 :: data) alpha fuel) = Stop /\
                  length (yielded (_low_pass self (x0 :: data) alpha fuel)) =
                    length (x0 :: data)).
  { intros Hf. rewrite (low_pass_run self x0 data alpha fuel Hf).
    rewrite ending_yields, yielded_yields, app_nil_r.
    split; [reflexivity | apply filter_from_length]. }
  assert (Hshort : (fuel <= length (x0 :: data))%nat ->
                   ending (_low_pass self (x0 :: data) alpha fuel) = Fuel).
  { intros Hf. unfold _low_pass. cbn [nth_error].
    apply (low_pass_loop_short _ (x0 :: data) [] x0 fuel Hf). }
  split; [|split]; trivial.
  intros e. destruct (Nat.lt_ge_cases (length (x0 :: data)) fuel) as [Hf|Hf].
  - destruct (Hlong Hf) as [-> _]. discriminate.
  - rewrite (Hshort Hf). discriminate.
Qed.

(** C8, as the code has it. With time stamps of two samples or more the
    time step is [(obmt[1] - obmt[0]) * 21600]; without time stamps
    ([_obmt] is [None]) it is 1; in both cases the filter is built.  With
    time stamps of fewer than two samples the construction fails with
    [IndexError]. *)
Theorem init_time_step (b : Base) :
  (forall o0 o1 rest,
      exists self,
        __init__ b (Some (o0 :: o1 :: rest)) = Ok self /\
        _dt self = (o1 - o0) * 21600) /\
  (exists self, __init__ b None = Ok self /\ _dt self = 1) /\
  (forall o, (length o < 2)%nat -> __init__ b (Some o) = Raise IndexError).
Proof.
  split; [|split].
  - intros o0 o1 rest. eexists. split; reflexivity.
  - eexists. split; reflexivity.
  - intros [|o0 [|o1 rest]] Ho; trivial. simpl in Ho. lia.
Qed.

(** C7: what the code does at a concrete input. A filter built without
    time stamps has [dt = 1], the cutoff 0.05 and
    [alpha = 2 pi dt f / (2 pi dt f + 1)]; [tweak_cutoff] with that same
    cutoff calls [reset] on the base state and sets
    [alpha = 1 - exp (- dt f)], which is another number. *)
Theorem tweak_cutoff_alpha_differs (b : Base) :
  exists self,
    __init__ b None = Ok self /\
    _dt self = 1 /\ _cutoff self = 0.05 /\
    _alpha self = (2 * PI * 1 * 0.05) / (2 * PI * 1 * 0.05 + 1) /\
    base (tweak_cutoff reset self 0.05) = reset (base self) /\
    _cutoff (tweak_cutoff reset self 0.05) = 0.05 /\
    _alpha (tweak_cutoff reset self 0.05) = 1 - exp (-1 * 1 * 0.05) /\
    _alpha (tweak_cutoff reset self 0.05) <> _alpha self.
Proof.
  eexists. split; [reflexivity|]. cbn.
  repeat (split; [reflexivity|]).
  pose proof (exp_ineq1_le (-1 * 1 * 0.05)) as He.
  pose proof PI2_1 as Hpi.
  set (u := 2 * PI * 1 * 0.05) in *.
  assert (Hu : 0.2 < u) by (unfold u; lra).
  intros Heq.
  assert (Hdiv : u / (u + 1) * (u + 1) = u) by (field; lra).
  rewrite <- Heq in Hdiv. nra.
Qed.

End Facts.

(** ** Runs on concrete inputs *)

(** The claim C3 as the spec has it fails on the input [0; 1] with
    [alpha = 1/2]: the second value is 1/2, made from [x[1]], and not
    [y[0] + alpha * (x[0] - y[0])], which is 0. *)
Lemma low_pass_uses_current_sample :
  exists y0 y1,
    _low_pass plain [0; 1] (Some (1 / 2)) 3 = Yield y0 (Yield y1 Stop) /\
    y0 = 0 /\ y1 = 1 / 2 /\
    y1 <> y0 + 1 / 2 * (0 - y0).
Proof.
  eexists. eexists. split; [reflexivity|].
  split; [lra|]. split; lra.
Qed.

Lemma low_pass_recurrence_witness :
  [0; 1] <> [] /\ (length [0; 1] < 3)%nat /\
  ending (_low_pass plain [0; 1] (Some (1 / 2)) 3) = Stop.
Proof.
  assert (H1 : [0; 1] <> []) by discriminate.
  assert (H2 : (length [0; 1] < 3)%nat) by (simpl; lia).
  split; [exact H1 | split; [exact H2|]].
  exact (proj1 (low_pass_recurrence unit plain [0; 1] (Some (1 / 2)) 3%nat H1 H2)).
Defined.

Lemma low_pass_empty_fails_witness :
  [0; 1] <> [] /\ (length [0; 1] < 3)%nat /\
  ending (_low_pass plain [0; 1] None 3) = Stop.
Proof.
  assert (H1 : [0; 1] <> []) by discriminate.
  assert (H2 : (length [0; 1] < 3)%nat) by (simpl; lia).
  split; [exact H1 | split; [exact H2|]].
  destruct (low_pass_empty_fails unit plain None 3%nat) as [_ [_ H]].
  destruct (H [0; 1] H1) as [_ [Hstop _]].
  exact (proj1 (Hstop H2)).
Defined.

(** The claim C8 as the spec has it fails on a series of one sample: the
    construction raises [IndexError] and no filter with [dt = 1] is made. *)
Lemma init_one_sample_fails :
  __init__ tt (Some [0]) = Raise IndexError /\
  ~ exists self, __init__ tt (Some [0]) = Ok self /\ _dt self = 1.
Proof.
  split; [reflexivity|]. intros [self [H _]]. discriminate.
Qed.

Lemma init_time_step_witness :
  (length [0] < 2)%nat /\ __init__ tt (Some [0]) = Raise IndexError.
Proof.
  assert (H : (length [0] < 2)%nat) by (simpl; lia).
  split; [exact H|].
  exact (proj2 (proj2 (init_time_step unit tt)) [0] H).
Defined.

End LowPassFacts.

(** ** More on the detectors *)

Module DetectorMore.

Import Detector DetectorFacts.
Local Open Scope Q_scope.

Lemma events_of_body (S : frame) (thr : Q) :
  snd (identify_anomaly_body S thr) =
  drop_duplicates
    (map (fun r => (idx r, quantize 10 (obmt r))) (filter (anomaly_flag thr) S)).
Proof.
  unfold identify_anomaly_body. simpl.
  rewrite filter_is_anomaly_set, !map_map. simpl.
  now rewrite <- (map_map obmt (quantize 10)), combine_idx_times.
Qed.

Lemma drop_duplicates_bucket (l : events) (e : event) :
  In e l -> exists e', In e' (drop_duplicates l) /\ snd e' == snd e.
Proof.
  intros He. destruct (drop_duplicates_first l e He) as [e' [Hf Hin]].
  exists e'. split; trivial.
  apply find_some in Hf. now apply Qeq_bool_iff.
Qed.

(** The canonical form of the bucket of an event. *)
Lemma NoDupA_buckets_NoDup (l : events) :
  NoDupA same_bucket l -> NoDup (map (fun e => Qred (snd e)) l).
Proof.
  induction 1 as [|e l Hnot Hnd IH]; simpl; constructor; trivial.
  intros Hin. apply in_map_iff in Hin. destruct Hin as [e' [Heq He']].
  apply Hnot. apply InA_alt. exists e'. split; trivial.
  unfold same_bucket. rewrite <- (Qred_correct (snd e)), <- (Qred_correct (snd e')).
  now rewrite Heq.
Qed.

(** *** Order *)

Lemma quantize_10_monotone (a b : Q) :
  a <= b -> quantize 10 a <= quantize 10 b.
Proof.
  intros H. unfold quantize, Qdiv.
  apply Qmult_le_compat_r; [|discriminate].
  rewrite <- Zle_Qle. apply Qfloor_resp_le.
  apply Qmult_le_compat_r; trivial. discriminate.
Qed.

Lemma flagged_buckets_ordered (flag : row -> bool) (S : frame) :
  time_ordered S ->
  StronglySorted (fun a b : event => snd a <= snd b)
    (map (fun r => (idx r, quantize 10 (obmt r))) (filter flag S)).
Proof.
  induction 1 as [|r S HS IH Hr]; simpl; [constructor|].
  destruct (flag r); trivial. simpl. constructor; trivial.
  apply Forall_forall. intros e He. apply in_map_iff in He.
  destruct He as [r' [<- Hr']]. simpl.
  apply filter_In in Hr'. destruct Hr' as [Hr' _].
  apply quantize_10_monotone. rewrite Forall_forall in Hr. now apply Hr.
Qed.

Lemma drop_duplicates_from_increasing (l : events) :
  forall seen,
    StronglySorted (fun a b : event => snd a <= snd b) l ->
    strictly_later (drop_duplicates_from seen l).
Proof.
  induction l as [|e l IH]; intros seen Hs; simpl; [constructor|].
  apply StronglySorted_inv in Hs. destruct Hs as [Hs He].
  destruct (existsb (Qeq_bool (snd e)) seen); [now apply IH|].
  constructor; [now apply IH|].
  apply Forall_forall. intros x Hx.
  pose proof (drop_duplicates_from_unseen _ _ _ Hx) as Hu.
  apply (subseq_In _ _ _ (drop_duplicates_from_subseq l _)) in Hx.
  rewrite Forall_forall in He. specialize (He x Hx).
  simpl in Hu. apply orb_false_iff in Hu. destruct Hu as [Hu _].
  apply Qle_lteq in He. destruct He as [He|He]; trivial.
  symmetry in He. apply Qeq_bool_iff in He. congruence.
Qed.

Lemma np_diff_positive (t : events) :
  strictly_later t -> Forall (fun d => 0 < d) (np_diff (map snd t)).
Proof.
  induction 1 as [|a t Ht IH Ha]; [constructor|].
  destruct t as [|b t]; [constructor|].
  change (np_diff (map snd (a :: b :: t)))
    with ((snd b - snd a) :: np_diff (map snd (b :: t))).
  constructor; trivial.
  inversion Ha as [|? ? Hab _]; subst.
  unfold Qminus. rewrite <- (Qplus_opp_r (snd a)).
  apply Qplus_lt_l. exact Hab.
Qed.

Lemma NoDup_labels_inj (l : frame) (a b : row) :
  NoDup (map idx l) -> In a l -> In b l -> idx a = idx b -> a = b.
Proof.
  induction l as [|x l IH]; simpl; intros Hnd Ha Hb Hab; [tauto|].
  inversion Hnd as [|? ? Hx Hnd']; subst.
  destruct Ha as [->|Ha], Hb as [->|Hb]; trivial.
  - exfalso. apply Hx. rewrite Hab. now apply in_map.
  - exfalso. apply Hx. rewrite <- Hab. now apply in_map.
  - now apply IH.
Qed.

Lemma np_diff_flat (l : list Q) (c : Q) :
  Forall (fun d => d == c) l -> Forall (fun d => d == 0) (np_diff l).
Proof.
  induction 1 as [|a l Ha Hl IH]; [constructor|].
  destruct l as [|b l]; [constructor|].
  change (np_diff (a :: b :: l)) with ((b - a) :: np_diff (b :: l)).
  constructor; trivial.
  inversion Hl as [|? ? Hb _]; subst. rewrite Ha, Hb. ring.
Qed.

Lemma filter_nothing {A} (f : A -> bool) (l : list A) :
  (forall x, In x l -> f x = false) -> filter f l = [].
Proof.
  induction l as [|x l IH]; intros H; simpl; trivial.
  rewrite (H x (or_introl eq_refl)). apply IH. intros y Hy. apply H. now right.
Qed.

Section Facts.

Variable sort_data : frame -> frame.

(** X2. [identify_anomaly]'s body does not look at an [anomaly] column that
    is already there: run on its own output, with the same or with another
    threshold, it gives what it gives on the series itself. *)
Theorem identify_anomaly_body_rerun (S : frame) (t1 t2 : Q) :
  identify_anomaly_body (fst (identify_anomaly_body S t1)) t2 =
  identify_anomaly_body S t2.
Proof.
  assert (H : map (fun r => set_anomaly (anomaly_flag t2 r) r)
                (fst (identify_anomaly_body S t1)) =
              map (fun r => set_anomaly (anomaly_flag t2 r) r) S).
  { unfold identify_anomaly_body. cbn [fst]. rewrite map_map.
    apply map_ext. intros r. reflexivity. }
  unfold identify_anomaly_body at 1 3. cbv zeta. now rewrite H.
Qed.

(** X4. Raising the threshold only removes detections: a sample flagged
    at the higher threshold is flagged at the lower one, and there are at
    most as many events. *)
Theorem identify_anomaly_threshold_monotone (df : frame) (t1 t2 : Q) :
  t1 <= t2 ->
  Forall2
    (fun r1 r2 => anomaly r2 = Some true -> anomaly r1 = Some true)
    (fst (identify_anomaly sort_data df t1))
    (fst (identify_anomaly sort_data df t2)) /\
  (length (snd (identify_anomaly sort_data df t2)) <=
   length (snd (identify_anomaly sort_data df t1)))%nat.
Proof.
  intros Ht. unfold identify_anomaly.
  set (S := sort_data df).
  assert (Hflag : forall r, anomaly_flag t2 r = true -> anomaly_flag t1 r = true).
  { intros r. rewrite !anomaly_flag_iff. intros H. now apply Qle_trans with t2. }
  split.
  - unfold identify_anomaly_body. cbn [fst].
    induction S as [|r S' IH]; simpl; constructor; trivial.
    simpl. intros [= H]. now rewrite (Hflag r H).
  - rewrite !events_of_body.
    set (F1 := map (fun r => (idx r, quantize 10 (obmt r))) (filter (anomaly_flag t1) S)).
    set (F2 := map (fun r => (idx r, quantize 10 (obmt r))) (filter (anomaly_flag t2) S)).
    assert (Hnd : NoDup (map (fun e => Qred (snd e)) (drop_duplicates F2)))
      by apply NoDupA_buckets_NoDup, drop_duplicates_from_NoDupA.
    assert (Hincl : incl (map (fun e => Qred (snd e)) (drop_duplicates F2))
                      (map (fun e => Qred (snd e)) (drop_duplicates F1))).
    { intros q Hq. apply in_map_iff in Hq. destruct Hq as [e [<- He]].
      apply (subseq_In _ _ _ (drop_duplicates_from_subseq F2 [])) in He.
      assert (He1 : In e F1).
      { unfold F1, F2 in *. apply in_map_iff in He.
        destruct He as [r [<- Hr]]. apply in_map_iff. exists r.
        split; trivial.
        apply filter_In in Hr. apply filter_In. destruct Hr. auto. }
      destruct (drop_duplicates_bucket F1 e He1) as [e' [He' Heq]].
      apply in_map_iff. exists e'. split; trivial. now apply Qred_complete. }
    pose proof (NoDup_incl_length Hnd Hincl) as H.
    now rewrite !length_map in H.
Qed.

(** X3. On a series in time order the events come out with strictly
    growing times, so every first difference taken by [identify_noise] is
    positive. *)
Theorem identify_anomaly_events_increasing (df : frame) (thr : Q) :
  time_ordered (sort_data df) ->
  strictly_later (snd (identify_anomaly sort_data df thr)) /\
  Forall (fun d => 0 < d) (np_diff (map snd (snd (identify_anomaly sort_data df thr)))).
Proof.
  intros Hs.
  assert (H : strictly_later (snd (identify_anomaly sort_data df thr))).
  { unfold identify_anomaly. rewrite events_of_body.
    apply drop_duplicates_from_increasing, flagged_buckets_ordered, Hs. }
  split; trivial. now apply np_diff_positive.
Qed.

(** X1. The events of [identify_through_gradient] are the pairs (index,
    [floor(obmt*20)/20]) of the rows it flagged, in their order, one per
    bucket of a twentieth of a revolution, each bucket with the first
    flagged row that falls in it. *)
Theorem identify_through_gradient_events (sort_values : frame -> frame)
  (df out : frame) (ev : events) (g : Q) :
  identify_through_gradient sort_data sort_values df g = Ok (out, ev) ->
  let flagged :=
    map (fun r => (idx r, inject_Z (Qfloor (obmt r * 20)) / 20))
      (filter (fun r => match anomaly r with Some true => true | _ => false end)
         out) in
  subseq ev flagged /\
  NoDupA same_bucket ev /\
  (forall e, In e flagged ->
     exists e', find (fun x => Qeq_bool (snd x) (snd e)) flagged = Some e' /\
                In e' ev).
Proof.
  unfold identify_through_gradient, identify_through_gradient_body.
  destruct (assign_column set_grad _ _) as [fr|e]; [|discriminate].
  cbn [rbind]. intros [= <- <-]. cbv zeta.
  rewrite combine_idx_times. fold is_anomaly.
  split; [apply drop_duplicates_from_subseq|].
  split; [apply drop_duplicates_from_NoDupA | apply drop_duplicates_first].
Qed.

(** *** What identify_noise returns *)

Hypothesis sort_data_permutes : forall l, Permutation (sort_data l) l.

(** X5. With unique index labels, a row that [identify_noise] marks
    [hits = True] is a row flagged [anomaly = True]. *)
Theorem identify_noise_hits_are_anomalies (df out : frame) (t : events) :
  NoDup (map idx df) ->
  identify_noise sort_data df = Ok (out, t) ->
  Forall (fun r => hits r = Some true -> anomaly r = Some true) out.
Proof.
  intros Hnd Hrun. apply Forall_forall. intros r Hr Hh.
  destruct (Nat.lt_ge_cases
              (length (snd (identify_anomaly sort_data (sort_data df) 2))) 3)
    as [Hlt|Hge].
  - destruct (identify_noise_few_rows sort_data df Hlt) as [rows [Hrun' [_ Hrows]]].
    rewrite Hrun in Hrun'. injection Hrun' as -> _.
    destruct (Hrows r Hr) as [_ [Heq _]]. congruence.
  - rewrite (identify_noise_many sort_data df Hge) in Hrun.
    injection Hrun as <- _.
    apply in_map_iff in Hr. destruct Hr as [r0 [<- Hr0]]. simpl in *.
    unfold identify_anomaly, identify_anomaly_body in Hr0. cbn [fst] in Hr0.
    apply in_map_iff in Hr0. destruct Hr0 as [s [<- Hs]]. simpl in *.
    destruct (in_dec Z.eq_dec (idx s)
                (map fst (snd (identify_anomaly sort_data (sort_data df) 2))))
      as [Hin|Hout].
    + apply in_map_iff in Hin. destruct Hin as [e [He1 He2]].
      destruct (event_origin _ _ _ He2) as [s0 [Hs0 [Hflag [Hi0 _]]]].
      assert (s = s0).
      { apply (NoDup_labels_inj (sort_data (sort_data df))); trivial.
        - now apply sorted_labels_NoDup.
        - congruence. }
      subst s0. now rewrite Hflag.
    + rewrite lookup_hits_other in Hh; trivial; [discriminate|].
      unfold events, event in *. lia.
Qed.

(** X8. On a series where no sample departs from [w1_rate] by 2 or more,
    [identify_noise] returns an empty frame and an empty event table,
    however many samples the series has. *)
Theorem identify_noise_quiet (df : frame) :
  Forall (fun r => Qabs (rate r - w1_rate r) < 2) df ->
  identify_anomaly sort_data (sort_data df) 2 =
    (map (set_anomaly false) (sort_data (sort_data df)), []) /\
  identify_noise sort_data df = Ok ([], []).
Proof.
  intros Hq.
  assert (Hall : forall r, In r (sort_data (sort_data df)) ->
                           anomaly_flag 2 r = false).
  { intros r Hr.
    assert (Hin : In r df).
    { apply (Permutation_in r (sort_data_permutes df)).
      now apply (Permutation_in r (sort_data_permutes (sort_data df))). }
    rewrite Forall_forall in Hq. specialize (Hq r Hin).
    destruct (anomaly_flag 2 r) eqn:E; trivial.
    apply anomaly_flag_iff in E. exfalso. now apply (Qlt_not_le _ _ Hq). }
  assert (Hrun : identify_anomaly sort_data (sort_data df) 2 =
                 (map (set_anomaly false) (sort_data (sort_data df)), [])).
  { unfold identify_anomaly. apply injective_projections.
    - unfold identify_anomaly_body. cbn [fst].
      apply map_ext_in. intros r Hr. now rewrite (Hall r Hr).
    - rewrite events_of_body. cbn [snd].
      now rewrite (filter_nothing _ _ Hall). }
  split.
  - exact Hrun.
  - unfold identify_noise, identify_noise_body. rewrite Hrun. reflexivity.
Qed.

Section Gradient.

Variable sort_values : frame -> frame.
Hypothesis sort_values_permutes : forall l, Permutation (sort_values l) l.

(** X18. On a series that is not empty and on which [rate - w1_rate] is
    the same at every sample, [identify_through_gradient] with a positive
    threshold flags nothing and returns no event. *)
Theorem identify_through_gradient_flat (df : frame) (g c : Q) :
  0 < g ->
  df <> [] ->
  Forall (fun r => rate r - w1_rate r == c) df ->
  exists out,
    identify_through_gradient sort_data sort_values df g = Ok (out, []) /\
    Forall (fun r => anomaly r = Some false) out.
Proof.
  intros Hg Hne Hflat.
  set (W := sort_values (sort_data df)).
  assert (HW : Permutation W df)
    by (unfold W; now rewrite sort_values_permutes, sort_data_permutes).
  assert (HWflat : Forall (fun d => d == c) (map deviation W)).
  { apply Forall_forall. intros d Hd. apply in_map_iff in Hd.
    destruct Hd as [r [<- Hr]]. rewrite Forall_forall in Hflat.
    apply Hflat. now apply (Permutation_in r HW). }
  assert (Hgrads : Forall (fun d => Qle_bool g d = false)
                     (0 :: np_diff (map deviation W))).
  { constructor.
    - destruct (Qle_bool g 0) eqn:E; trivial.
      apply Qle_bool_iff in E. exfalso. now apply (Qlt_not_le 0 g).
    - eapply Forall_impl; [|apply (np_diff_flat _ c HWflat)].
      intros d Hd. simpl in Hd.
      destruct (Qle_bool g d) eqn:E; trivial.
      apply Qle_bool_iff in E. rewrite Hd in E.
      exfalso. now apply (Qlt_not_le 0 g). }
  assert (Hlen : length (0 :: np_diff (map deviation W)) = length W).
  { simpl. rewrite np_diff_length, length_map.
    destruct W as [|r W']; [|reflexivity].
    apply Permutation_nil in HW. congruence. }
  unfold identify_through_gradient, identify_through_gradient_body, assign_column.
  fold W. rewrite Hlen, Nat.eqb_refl. cbn [rbind].
  destruct (gradient_rows g _ W Hlen) as [_ H2].
  set (out := map (fun r => set_anomaly (grad_flag g r) r)
                (map (fun vr => set_grad (fst vr) (snd vr))
                   (combine (0 :: np_diff (map deviation W)) W))) in *.
  assert (Hout : Forall (fun r => anomaly r = Some false) out).
  { clear - H2 Hgrads. induction H2 as [|d r ds rs [_ Hr] _ IH]; constructor.
    - inversion Hgrads; subst. congruence.
    - apply IH. now inversion Hgrads. }
  exists out. split; trivial.
  rewrite (filter_nothing is_anomaly out); trivial.
  intros r Hr. rewrite Forall_forall in Hout. unfold is_anomaly.
  now rewrite (Hout r Hr).
Qed.

End Gradient.

End Facts.

(** *** The insertion sort gives a series in time order *)

Lemma insert_row_ordered (r : row) (l : frame) :
  time_ordered l -> time_ordered (insert_row r l).
Proof.
  induction 1 as [|x l Hl IH Hx]; simpl.
  - repeat constructor.
  - destruct (Qle_bool (obmt r) (obmt x)) eqn:E.
    + apply Qle_bool_iff in E. constructor; [now constructor|].
      constructor; trivial.
      eapply Forall_impl; [|exact Hx]. simpl. intros a Ha.
      now apply Qle_trans with (obmt x).
    + constructor; trivial.
      apply (Permutation_Forall (Permutation_sym (insert_row_permutes r l))).
      constructor; trivial.
      apply Qlt_le_weak, Qnot_le_lt. intros H.
      apply Qle_bool_iff in H. congruence.
Qed.

Lemma sort_by_obmt_ordered (l : frame) : time_ordered (sort_by_obmt l).
Proof.
  induction l as [|r l IH]; simpl; [constructor|].
  now apply insert_row_ordered.
Qed.

(** *** Runs on concrete series *)

Lemma identify_anomaly_events_increasing_witness :
  time_ordered (sort_by_obmt spikes) /\
  strictly_later (snd (identify_anomaly sort_by_obmt spikes 2)).
Proof.
  assert (H : time_ordered (sort_by_obmt spikes)) by apply sort_by_obmt_ordered.
  split; [exact H|].
  exact (proj1 (identify_anomaly_events_increasing sort_by_obmt spikes 2 H)).
Defined.

Lemma identify_anomaly_threshold_monotone_witness :
  2 <= 4 /\
  (length (snd (identify_anomaly sort_by_obmt spikes 4)) <=
   length (snd (identify_anomaly sort_by_obmt spikes 2)))%nat.
Proof.
  assert (H : 2 <= 4) by discriminate.
  split; [exact H|].
  exact (proj2 (identify_anomaly_threshold_monotone sort_by_obmt spikes 2 4 H)).
Defined.

Lemma identify_through_gradient_events_witness :
  exists out ev,
    identify_through_gradient sort_by_obmt sort_by_obmt spikes (3 # 10) =
      Ok (out, ev) /\
    NoDupA same_bucket ev.
Proof.
  eexists. eexists.
  assert (H : identify_through_gradient sort_by_obmt sort_by_obmt spikes (3 # 10) =
              Ok (fst (match identify_through_gradient sort_by_obmt sort_by_obmt
                               spikes (3 # 10) with
                       | Ok p => p | Raise _ => ([], []) end),
                  snd (match identify_through_gradient sort_by_obmt sort_by_obmt
                               spikes (3 # 10) with
                       | Ok p => p | Raise _ => ([], []) end)))
    by (vm_compute; reflexivity).
  split; [exact H|].
  exact (proj1 (proj2 (identify_through_gradient_events sort_by_obmt sort_by_obmt
                         spikes _ _ (3 # 10) H))).
Defined.

Lemma identify_noise_hits_are_anomalies_witness :
  NoDup (map idx spikes) /\
  exists out t,
    identify_noise sort_by_obmt spikes = Ok (out, t) /\
    Forall (fun r => hits r = Some true -> anomaly r = Some true) out.
Proof.
  assert (H1 : NoDup (map idx spikes)) by exact spikes_labels.
  split; [exact H1|].
  eexists. eexists.
  assert (H : identify_noise sort_by_obmt spikes =
              Ok (fst (match identify_noise sort_by_obmt spikes with
                       | Ok p => p | Raise _ => ([], []) end),
                  snd (match identify_noise sort_by_obmt spikes with
                       | Ok p => p | Raise _ => ([], []) end)))
    by (vm_compute; reflexivity).
  split; [exact H|].
  exact (identify_noise_hits_are_anomalies sort_by_obmt sort_by_obmt_permutes
           spikes _ _ H1 H).
Defined.

Lemma identify_through_gradient_flat_witness :
  0 < 3 # 10 /\ calm_offset <> [] /\
  Forall (fun r => rate r - w1_rate r == 1) calm_offset /\
  exists out,
    identify_through_gradient sort_by_obmt sort_by_obmt calm_offset (3 # 10) =
      Ok (out, []).
Proof.
  assert (H1 : 0 < 3 # 10) by reflexivity.
  assert (H2 : calm_offset <> []) by discriminate.
  assert (H3 : Forall (fun r => rate r - w1_rate r == 1) calm_offset)
    by (repeat constructor).
  split; [exact H1 | split; [exact H2 | split; [exact H3|]]].
  destruct (identify_through_gradient_flat sort_by_obmt sort_by_obmt_permutes
              sort_by_obmt sort_by_obmt_permutes calm_offset (3 # 10) 1 H1 H2 H3)
    as [out [Hrun _]].
  exists out. exact Hrun.
Defined.

Lemma identify_noise_quiet_witness :
  Forall (fun r => Qabs (rate r - w1_rate r) < 2) calm /\
  identify_noise sort_by_obmt calm = Ok ([], []).
Proof.
  assert (H : Forall (fun r => Qabs (rate r - w1_rate r) < 2) calm)
    by (repeat constructor).
  split; [exact H|].
  exact (proj2 (identify_noise_quiet sort_by_obmt sort_by_obmt_permutes calm H)).
Defined.

End DetectorMore.

(** ** The callers *)

Module CallersFacts.

Import Detector DetectorFacts DetectorMore Callers.
Local Open Scope Q_scope.

Lemma length_filter_map {A B} (p : B -> bool) (f : A -> B) (l : list A) :
  length (filter p (map f l)) = length (filter (fun x => p (f x)) l).
Proof.
  induction l as [|x l IH]; simpl; trivial.
  destruct (p (f x)); simpl; now rewrite IH.
Qed.

Lemma zip_time_diff_diff (ix : list Z) :
  forall (o d dd : list Q),
    length o = length ix -> length d = length ix -> length dd = length ix ->
    map t_diff_diff (zip_time ix o d dd) = dd.
Proof.
  induction ix as [|x ix IH]; intros o d dd Ho Hd Hdd.
  - destruct dd; [reflexivity | discriminate].
  - destruct o as [|y o]; [discriminate|].
    destruct d as [|z d]; [discriminate|].
    destruct dd as [|u dd]; [discriminate|].
    simpl in *. f_equal. apply IH; lia.
Qed.

(** Whether [hit_data] has [hits = True] for a label. *)
Lemma hit_table_hits (t : events) (h : trow) :
  In h (hit_table t) -> t_hits h = Some (classify (t_diff_diff h)).
Proof.
  unfold hit_table. intros H. apply in_map_iff in H.
  destruct H as [h0 [<- _]]. reflexivity.
Qed.

Lemma hit_table_count (t : events) :
  (2 <= length t)%nat ->
  length (filter (fun h => classify (t_diff_diff h)) (hit_table t)) =
  length (filter classify (padded_diff_diff t)).
Proof.
  intros H. destruct (padded_lengths t H) as [H1 H2].
  rewrite <- (length_filter_map classify t_diff_diff).
  unfold hit_table. rewrite map_map. simpl.
  change (map (fun x : trow => t_diff_diff x)) with (map t_diff_diff).
  rewrite zip_time_diff_diff; rewrite ?length_map; trivial.
Qed.

(** The rows marked [hits = True] in the branch of 3 events or more are
    as many as the events classified [True]. *)
Lemma marked_rows_count (t : events) (data : frame) :
  (2 <= length t)%nat ->
  NoDup (map idx data) -> NoDup (map fst t) ->
  incl (map fst t) (map idx data) ->
  length (filter is_hit
            (map (fun r => set_hits (lookup_hits (hit_table t) (idx r)) r) data)) =
  length (filter classify (padded_diff_diff t)).
Proof.
  intros Ht Hdata Hlab Hincl.
  set (p := fun k => match lookup_hits (hit_table t) k with
                     | Some true => true
                     | _ => false
                     end).
  rewrite length_filter_map.
  change (length (filter (fun r => p (idx r)) data) =
          length (filter classify (padded_diff_diff t))).
  rewrite <- (length_filter_map p idx).
  assert (Hperm : Permutation (filter p (map idx data)) (filter p (map fst t))).
  { apply NoDup_Permutation; try now apply NoDup_filter.
    intros k. rewrite !filter_In. split; intros [Hin Hp]; split; trivial.
    - destruct (in_dec Z.eq_dec k (map fst t)) as [Hk|Hk]; trivial.
      unfold p in Hp. rewrite lookup_hits_other in Hp; trivial. discriminate.
    - now apply Hincl. }
  rewrite (Permutation_length Hperm), <- (hit_table_idx t Ht), length_filter_map.
  rewrite <- hit_table_count; trivial. f_equal.
  apply filter_ext_in. intros h Hh.
  destruct (In_nth_error _ _ Hh) as [i Hi].
  unfold p, lookup_hits. rewrite (find_unique _ i h); trivial.
  - rewrite (hit_table_hits t h Hh). now destruct (classify (t_diff_diff h)).
  - now rewrite hit_table_idx.
Qed.

Lemma first_two_counted (l : list Q) :
  (2 <= length (filter classify (1%Q :: 1%Q :: l)))%nat.
Proof. simpl. lia. Qed.

Lemma filter_all {A} (f : A -> bool) (l : list A) :
  (forall x, In x l -> f x = true) -> filter f l = l.
Proof.
  induction l as [|x l IH]; intros H; simpl; trivial.
  rewrite (H x (or_introl eq_refl)). f_equal. apply IH.
  intros y Hy. apply H. now right.
Qed.

(** The rows returned in the branch of fewer than 3 events, with unique
    labels: one per event, all with [hits = True]. *)
Lemma few_rows_count (W : frame) (labels : list Z) (rows : frame) :
  NoDup (map idx W) -> NoDup labels ->
  loc W labels = Ok rows ->
  length rows = length labels.
Proof.
  intros HW. revert rows.
  induction labels as [|k ks IH]; intros rows Hl Hloc; simpl in Hloc.
  - now injection Hloc as <-.
  - inversion Hl as [|? ? Hk Hks]; subst.
    destruct (filter (fun r => Z.eqb (idx r) k) W) as [|r0 rows0] eqn:Ef;
      [discriminate|].
    destruct (loc W ks) as [rest|e]; [|discriminate].
    simpl in Hloc. injection Hloc as <-.
    assert (Hone : rows0 = []).
    { assert (Hnd : NoDup (map idx (r0 :: rows0))).
      { rewrite <- Ef. clear - HW. induction W as [|x W IH]; simpl; [constructor|].
        inversion HW as [|? ? Hx HW']; subst.
        destruct (Z.eqb (idx x) k); [|now apply IH].
        simpl. constructor; [|now apply IH].
        intros Hin. apply Hx. apply in_map_iff in Hin.
        destruct Hin as [y [Hy1 Hy2]]. apply filter_In in Hy2.
        rewrite <- Hy1. apply in_map. tauto. }
      destruct rows0 as [|r1 rows0]; trivial. exfalso.
      assert (H0 : In r0 (filter (fun r => Z.eqb (idx r) k) W))
        by (rewrite Ef; now left).
      assert (H1 : In r1 (filter (fun r => Z.eqb (idx r) k) W))
        by (rewrite Ef; right; now left).
      apply filter_In in H0. apply filter_In in H1.
      destruct H0 as [_ H0]. destruct H1 as [_ H1].
      apply Z.eqb_eq in H0. apply Z.eqb_eq in H1.
      inversion Hnd as [|? ? Hx _]; subst. apply Hx. simpl. left. congruence. }
    subst rows0. simpl. f_equal. now apply IH.
Qed.

(** *** Colours and bars *)

Lemma Forall2_of_nth {A B} (R : A -> B -> Prop) (l1 : list A) :
  forall l2,
    length l1 = length l2 ->
    (forall i a b, nth_error l1 i = Some a -> nth_error l2 i = Some b -> R a b) ->
    Forall2 R l1 l2.
Proof.
  induction l1 as [|a l1 IH]; intros [|b l2] Hlen H; try discriminate.
  - constructor.
  - constructor.
    + apply (H O); reflexivity.
    + apply IH; [simpl in Hlen; lia|].
      intros i a' b' Ha Hb. apply (H (S i)); trivial.
Qed.


Lemma color_at_nth (labels : list Z) :
  forall (cs : list colour) i k c,
    NoDup labels ->
    nth_error labels i = Some k -> nth_error cs i = Some c ->
    color_at (combine labels cs) k = Ok c.
Proof.
  induction labels as [|l labels IH]; intros cs i k c Hnd Hk Hc.
  - destruct i; discriminate.
  - destruct cs as [|c0 cs]; [destruct i; discriminate|].
    inversion Hnd as [|? ? Hl Hnd']; subst.
    destruct i as [|i]; simpl in Hk, Hc.
    + injection Hk as ->. injection Hc as ->.
      unfold color_at. simpl. now rewrite Z.eqb_refl.
    + unfold color_at. simpl. destruct (Z.eqb l k) eqn:E.
      * apply Z.eqb_eq in E. subst l. exfalso. apply Hl.
        now apply nth_error_In with i.
      * now apply (IH cs i).
Qed.

Lemma draw_bars_run (colors : list (Z * colour)) (t : events) :
  forall cs,
    Forall2 (fun e c => color_at colors (fst e) = Ok c) t cs ->
    draw_bars colors t = (map bar (combine t cs), Ok tt).
Proof.
  induction t as [|[index time] t IH]; intros cs H; inversion H; subst.
  - reflexivity.
  - simpl in *. match goal with Hc : color_at _ _ = _ |- _ => rewrite Hc end.
    unfold wlift, wbind, call. cbn [fst snd app].
    rewrite (IH l'); trivial.
Qed.

Lemma draw_bars_table (t : events) (cs : list colour) :
  NoDup (map fst t) -> length cs = length t ->
  draw_bars (combine (map fst t) cs) t = (map bar (combine t cs), Ok tt).
Proof.
  intros Hnd Hlen. apply draw_bars_run.
  apply Forall2_of_nth; [now symmetry|].
  intros i e c He Hc. apply (color_at_nth _ cs i); trivial.
  now apply map_nth_error.
Qed.

Lemma draw_bars_no_show (colors : list (Z * colour)) (t : events) :
  ~ In show (fst (draw_bars colors t)).
Proof.
  induction t as [|[index time] t IH]; simpl; [tauto|].
  destruct (color_at colors index) as [c|e];
    unfold wlift, wbind, call; cbn [fst snd app]; [|tauto].
  destruct (draw_bars colors t) as [calls r]. cbn [fst snd] in *.
  simpl. intros [H|H]; [discriminate | tauto].
Qed.



Section Facts.

Variable sort_data : frame -> frame.
Hypothesis sort_data_permutes : forall l, Permutation (sort_data l) l.

(** With unique labels, the rows of the frame returned in the branch of
    fewer than 3 events are one per event and all have [hits = True]. *)
Lemma few_rows_all_hits (df : frame) :
  NoDup (map idx df) ->
  (length (snd (identify_anomaly sort_data (sort_data df) 2)) < 3)%nat ->
  exists hit_df,
    identify_noise sort_data df =
      Ok (hit_df, snd (identify_anomaly sort_data (sort_data df) 2)) /\
    length hit_df = length (snd (identify_anomaly sort_data (sort_data df) 2)) /\
    (forall r, In r hit_df -> hits r = Some true) /\
    (forall e, In e (snd (identify_anomaly sort_data (sort_data df) 2)) ->
               exists r, In r hit_df /\ idx r = fst e).
Proof.
  intros Hnd Ht.
  pose proof (sorted_labels_NoDup sort_data sort_data_permutes df Hnd) as HS2.
  rewrite (identify_noise_few sort_data df Ht).
  unfold identify_anomaly in *.
  set (S2 := sort_data (sort_data df)) in *.
  set (t := snd (identify_anomaly_body S2 2)) in *.
  set (W := map (fun r => set_hits (anomaly r) r) (fst (identify_anomaly_body S2 2))).
  assert (HW : map idx W = map idx S2).
  { unfold W, identify_anomaly_body. cbn [fst]. now rewrite !map_map. }
  assert (Hlab : forall k, In k (map fst t) -> In k (map idx S2)).
  { intros k Hk. now apply (subseq_In _ _ _ (event_labels_subseq S2 2)). }
  destruct (loc_total W (map fst t)) as [rows [Hloc Hrows]].
  { intros k Hk. rewrite HW. now apply Hlab. }
  exists rows. rewrite Hloc. split; [reflexivity|]. split; [|split].
  - rewrite (few_rows_count W (map fst t) rows); trivial.
    + apply length_map.
    + now rewrite HW.
    + now apply event_labels_NoDup.
  - intros r Hr. apply Hrows in Hr. destruct Hr as [Hr Hin].
    unfold W, identify_anomaly_body in Hr. cbn [fst] in Hr.
    rewrite map_map in Hr. apply in_map_iff in Hr.
    destruct Hr as [s [<- Hs]]. simpl in *.
    apply in_map_iff in Hin. destruct Hin as [e [He1 He2]].
    destruct (event_origin S2 2 e He2) as [s0 [Hs0 [Hflag [Hi0 _]]]].
    assert (s = s0) by (apply (NoDup_labels_inj S2); trivial; congruence).
    subst s0. now rewrite Hflag.
  - intros e He.
    destruct (event_origin S2 2 e He) as [s0 [Hs0 [Hflag [Hi0 _]]]].
    exists (set_hits (Some true) (set_anomaly true s0)).
    split; [|simpl; auto].
    apply Hrows. split.
    + unfold W, identify_anomaly_body. cbn [fst]. rewrite map_map.
      apply in_map_iff. exists s0. split; trivial.
      simpl. rewrite Hflag. reflexivity.
    + simpl. rewrite <- Hi0. now apply in_map.
Qed.

(** The number printed for one file. *)
Lemma hit_count_of_file (df : frame) :
  NoDup (map idx df) ->
  exists hit_locs,
    identify_noise sort_data df =
      Ok (hit_locs, snd (identify_anomaly sort_data (sort_data df) 2)) /\
    printed_count (snd (identify_anomaly sort_data (sort_data df) 2))
      (length (filter is_hit hit_locs)).
Proof.
  intros Hnd.
  pose proof (sorted_labels_NoDup sort_data sort_data_permutes df Hnd) as HS2.
  destruct (Nat.lt_ge_cases
              (length (snd (identify_anomaly sort_data (sort_data df) 2))) 3)
    as [Hlt|Hge].
  - destruct (few_rows_all_hits df Hnd Hlt) as [rows [Hrun [Hlen [Hall _]]]].
    exists rows. split; trivial.
    rewrite filter_all, Hlen.
    + unfold printed_count. unfold events, event in *. lia.
    + intros r Hr. unfold is_hit. now rewrite (Hall r Hr).
  - rewrite (identify_noise_many sort_data df Hge).
    eexists. split; [reflexivity|].
    rewrite marked_rows_count.
    + pose proof (filter_length_le classify
                    (padded_diff_diff (snd (identify_anomaly sort_data (sort_data df) 2))))
        as Hle.
      destruct (padded_lengths (snd (identify_anomaly sort_data (sort_data df) 2)))
        as [_ H2]; [unfold events, event in *; lia|].
      pose proof (first_two_counted
                    (np_diff (np_diff (map snd (snd (identify_anomaly sort_data
                                                      (sort_data df) 2))))))
        as Htwo.
      fold (padded_diff_diff (snd (identify_anomaly sort_data (sort_data df) 2)))
        in Htwo.
      unfold printed_count. unfold events, event in *. repeat split; lia.
    + unfold events, event in *. lia.
    + unfold identify_anomaly, identify_anomaly_body. cbn [fst].
      now rewrite map_map.
    + unfold identify_anomaly. now apply event_labels_NoDup.
    + unfold identify_anomaly. intros k Hk.
      apply (subseq_In _ _ _ (event_labels_subseq _ 2)) in Hk.
      unfold identify_anomaly_body. cbn [fst]. now rewrite map_map.
Qed.

(** X6. For files whose frames have unique index labels, the entry point
    ends normally and prints one number per file, in order: the number of
    events of the file when they are fewer than 3, and else the number of
    events whose padded second difference is at least 0.5, which is at
    least 2 and at most the number of events. *)
Theorem main_prints_hit_counts (files : list frame) :
  Forall (fun df => NoDup (map idx df)) files ->
  snd (main sort_data files) = Ok tt /\
  Forall2
    (fun df n =>
       printed_count (snd (identify_anomaly sort_data (sort_data df) 2)) n)
    files (fst (main sort_data files)).
Proof.
  induction 1 as [|df files Hdf Hfiles IH]; simpl.
  - split; [reflexivity | constructor].
  - destruct (hit_count_of_file df Hdf) as [hit_locs [Hrun Hcount]].
    rewrite Hrun. unfold wlift, wbind, call. cbn [fst snd app].
    destruct IH as [IH1 IH2].
    destruct (main sort_data files) as [calls r]. cbn [fst snd] in *.
    split; trivial. constructor; trivial.
Qed.

(** X7. A file with unique labels and 3 events or more whose gaps
    between events never grow by half a revolution or more from one gap to
    the next (a periodic train, or one that speeds up) makes the entry
    point print 2: only the first two events count as hits. *)
Theorem main_periodic_train (df : frame) :
  let t := snd (identify_anomaly sort_data (sort_data df) 2) in
  NoDup (map idx df) ->
  (3 <= length t)%nat ->
  Forall (fun dd => dd < 1 # 2) (np_diff (np_diff (map snd t))) ->
  main sort_data [df] = ([2%nat], Ok tt).
Proof.
  intros t Hnd Ht Hper.
  destruct (hit_count_of_file df Hnd) as [hit_locs [Hrun [_ [_ Hcount]]]].
  fold t in Hrun, Hcount. destruct (Hcount Ht) as [_ Hn].
  simpl. rewrite Hrun. unfold wlift, wbind, call, wret. cbn [fst snd app].
  rewrite Hn. unfold padded_diff_diff. simpl.
  rewrite filter_nothing; trivial.
  intros dd Hdd. rewrite Forall_forall in Hper. specialize (Hper dd Hdd).
  unfold classify. now rewrite (proj2 (Qlt_bool_iff dd (1 # 2)) Hper).
Qed.

(** *** plot_anomaly *)

Section Plot.

Variable sort_values : frame -> frame.


(** X10. In the threshold mode ([noise] and [grad] both false), on a
    frame with unique index labels, one turn of [plot_anomaly] raises
    nothing; with highlighting it draws one red bar per event of
    [identify_anomaly], from the event time to 0.05 later, then the
    scatter with point size 0.1; without it only the scatter, with point
    size 1; the two axis labels come last. *)
Theorem plot_one_threshold (df : frame) (highlight highlights : bool) :
  let t := snd (identify_anomaly sort_data df 2) in
  NoDup (map idx df) ->
  plot_one sort_data sort_values highlight highlights false false df =
  ((if highlight || highlights
    then map bar (combine t (map (fun _ => red) t)) ++
         [scatter (map obmt df) (map deviation df) (1 # 10)]
    else [scatter (map obmt df) (map deviation df) 1]) ++
   [xlabel x_label; ylabel y_label],
   Ok tt).
Proof.
  intros t Hnd.
  assert (Hlab : NoDup (map fst t)).
  { unfold t, identify_anomaly. apply event_labels_NoDup.
    apply Permutation_NoDup with (map idx df); trivial.
    apply Permutation_map, Permutation_sym, sort_data_permutes. }
  unfold plot_one, detect. fold t.
  unfold wlift, wbind, call. cbn [fst snd app].
  destruct (highlight || highlights); cbn [fst snd app]; trivial.
  rewrite map_map.
  rewrite (draw_bars_table t _ Hlab) by apply length_map.
  reflexivity.
Qed.

(** X11. [plt.show()] is called by [plot_anomaly] once, as the last call,
    when [show] is set and every frame was drawn without an exception;
    it is called at no other point, and not at all after an exception. *)
Theorem plot_anomaly_shows_last (dfs : list frame)
  (highlight highlights noise show_ grad : bool) :
  let drawn := plot_each sort_data sort_values highlight highlights noise grad dfs in
  ~ In show (fst drawn) /\
  (snd drawn = Ok tt ->
   plot_anomaly sort_data sort_values dfs highlight highlights noise show_ grad =
   (fst drawn ++ (if show_ then [show] else []), Ok tt)) /\
  (forall e, snd drawn = Raise e ->
   plot_anomaly sort_data sort_values dfs highlight highlights noise show_ grad =
   (fst drawn, Raise e)).
Proof.
  intros drawn. split; [|split].
  - unfold drawn. induction dfs as [|df dfs' IH]; simpl; [tauto|].
    assert (Hone : ~ In show (fst (plot_one sort_data sort_values highlight
                                     highlights noise grad df))).
    { unfold plot_one.
      destruct (detect sort_data sort_values noise grad df) as [[t colors]|e];
        unfold wlift, wbind, call; cbn [fst snd app]; [|tauto].
      destruct (highlight || highlights); cbn [fst snd app].
      - pose proof (draw_bars_no_show colors t) as Hb.
        destruct (draw_bars colors t) as [calls [[]|e]]; cbn [fst snd app] in *.
        + rewrite !in_app_iff. simpl. intuition discriminate.
        + exact Hb.
      - simpl. intuition discriminate. }
    unfold wbind.
    destruct (plot_one sort_data sort_values highlight highlights noise grad df)
      as [calls [[]|e]]; cbn [fst snd] in *; trivial.
    rewrite in_app_iff. tauto.
  - intros Hok. unfold plot_anomaly, wbind. fold drawn.
    destruct drawn as [calls r]. cbn [fst snd] in *. subst r.
    destruct show_; reflexivity.
  - intros e He. unfold plot_anomaly, wbind. fold drawn.
    destruct drawn as [calls r]. cbn [fst snd] in *. now subst r.
Qed.

End Plot.

End Facts.

(** *** Runs on concrete series *)

Lemma train_labels : NoDup (map idx train).
Proof.
  repeat constructor; simpl; intuition discriminate.
Defined.

Lemma main_prints_hit_counts_witness :
  Forall (fun df => NoDup (map idx df)) [spikes; train] /\
  snd (main sort_by_obmt [spikes; train]) = Ok tt.
Proof.
  assert (H : Forall (fun df => NoDup (map idx df)) [spikes; train]).
  { constructor; [exact spikes_labels|].
    constructor; [exact train_labels | constructor]. }
  split; [exact H|].
  exact (proj1 (main_prints_hit_counts sort_by_obmt sort_by_obmt_permutes
                  [spikes; train] H)).
Defined.

Lemma main_periodic_train_witness :
  NoDup (map idx train) /\
  (3 <= length (snd (identify_anomaly sort_by_obmt (sort_by_obmt train) 2)))%nat /\
  Forall (fun dd => dd < 1 # 2)
    (np_diff (np_diff (map snd (snd (identify_anomaly sort_by_obmt
                                       (sort_by_obmt train) 2))))) /\
  main sort_by_obmt [train] = ([2%nat], Ok tt).
Proof.
  assert (H1 : NoDup (map idx train)) by exact train_labels.
  assert (H2 : (3 <= length (snd (identify_anomaly sort_by_obmt
                                    (sort_by_obmt train) 2)))%nat)
    by (vm_compute; lia).
  assert (H3 : Forall (fun dd => dd < 1 # 2)
                 (np_diff (np_diff (map snd (snd (identify_anomaly sort_by_obmt
                                                    (sort_by_obmt train) 2))))))
    by (vm_compute; repeat constructor).
  split; [exact H1 | split; [exact H2 | split; [exact H3|]]].
  exact (main_periodic_train sort_by_obmt sort_by_obmt_permutes train H1 H2 H3).
Defined.


Lemma plot_one_threshold_witness :
  NoDup (map idx spikes) /\
  snd (plot_one sort_by_obmt sort_by_obmt true false false false spikes) = Ok tt.
Proof.
  assert (H : NoDup (map idx spikes)) by exact spikes_labels.
  split; [exact H|].
  exact (f_equal snd (plot_one_threshold sort_by_obmt sort_by_obmt_permutes
                        sort_by_obmt spikes true false H)).
Defined.

Lemma plot_anomaly_shows_last_witness :
  snd (plot_each sort_by_obmt sort_by_obmt true false false false [spikes]) = Ok tt /\
  snd (plot_anomaly sort_by_obmt sort_by_obmt [spikes] true false false true false)
    = Ok tt.
Proof.
  assert (H : snd (plot_each sort_by_obmt sort_by_obmt true false false false
                     [spikes]) = Ok tt)
    by (vm_compute; reflexivity).
  split; [exact H|].
  exact (f_equal snd
           (proj1 (proj2 (plot_anomaly_shows_last sort_by_obmt sort_by_obmt
                            [spikes] true false false true false)) H)).
Defined.

End CallersFacts.

(** ** The test of identify_anomaly *)

Module TestHitsFacts.

Import Detector TestHits.
Local Open Scope Q_scope.

Lemma every_draw_passes : draws_pass 1 19 = true.
Proof. vm_compute. reflexivity. Qed.

(** X17. [test_identify_anomaly_correctly_identifies] passes for every
    number of hits that [np.random.randint(1, 20)] can draw, with any
    [sort_data] that leaves the frame of [setUp], which is in time order,
    as it is: [setUp] raises nothing and [identify_anomaly] finds exactly
    [hits] events. *)
Theorem test_identify_anomaly_passes (sort_data : frame -> frame) (hits : nat) :
  (1 <= hits < 20)%nat ->
  sort_data (setUp_df hits) = setUp_df hits ->
  test_identify_anomaly_correctly_identifies sort_data hits = Ok true.
Proof.
  intros Hh Hsort.
  pose proof every_draw_passes as Hall. unfold draws_pass in Hall.
  rewrite forallb_forall in Hall. specialize (Hall hits).
  assert (Hin : In hits (seq 1 19)) by (apply in_seq; lia).
  specialize (Hall Hin).
  unfold test_identify_anomaly_correctly_identifies, setUp_df in *.
  destruct (setUp hits) as [df|e]; [|discriminate].
  cbn [rbind]. unfold identify_anomaly. now rewrite Hsort, Hall.
Qed.

Lemma test_identify_anomaly_passes_witness :
  (1 <= 5 < 20)%nat /\
  sort_by_obmt (setUp_df 5) = setUp_df 5 /\
  test_identify_anomaly_correctly_identifies sort_by_obmt 5 = Ok true.
Proof.
  assert (H1 : (1 <= 5 < 20)%nat) by lia.
  assert (H2 : sort_by_obmt (setUp_df 5) = setUp_df 5)
    by (vm_compute; reflexivity).
  split; [exact H1 | split; [exact H2|]].
  exact (test_identify_anomaly_passes sort_by_obmt 5 H1 H2).
Defined.

End TestHitsFacts.

